(** * fetch_events.py: the scraping pipeline of the marathon repository

    A shallow embedding of [scripts/fetch_events.py] and the properties of
    its normaliser, classifier, extractor, deduplicator, loader, writer and
    orchestrator. *)

From Stdlib Require Import ZArith NArith Ascii String Lia DecimalString.
From stdpp Require Import gmap.

Set Warnings "-register-all,-clear-no-such-hyp".
Local Open Scope N_scope.

(** ** Python text

    A Python [str] is the list of its code points.  Literals of the source
    are written as UTF-8 string literals and decoded by [u]. *)

Module Str.

Definition str : Type := list N.

(** Decoder of well-formed UTF-8, used for the literals of this file only. *)
Fixpoint utf8 (bs : list N) : str :=
  match bs with
  | [] => []
  | b0 :: r0 =>
    if b0 <? 0x80 then b0 :: utf8 r0
    else if b0 <? 0xE0 then
      match r0 with
      | b1 :: r1 => ((b0 - 0xC0) * 64 + (b1 - 0x80)) :: utf8 r1
      | _ => []
      end
    else if b0 <? 0xF0 then
      match r0 with
      | b1 :: b2 :: r2 =>
        ((b0 - 0xE0) * 4096 + (b1 - 0x80) * 64 + (b2 - 0x80)) :: utf8 r2
      | _ => []
      end
    else
      match r0 with
      | b1 :: b2 :: b3 :: r3 =>
        ((b0 - 0xF0) * 262144 + (b1 - 0x80) * 4096 + (b2 - 0x80) * 64
         + (b3 - 0x80)) :: utf8 r3
      | _ => []
      end
  end.

Definition u (s : string) : str :=
  utf8 (map (fun a => N_of_ascii a) (list_ascii_of_string s)).

(** One ASCII character. *)
Definition ch (a : ascii) : N := N_of_ascii a.
Arguments ch : simpl never.

(** [str.isspace] on one code point: the characters [str.strip()] removes
    and the class [\s] of a [str] pattern. *)
Definition is_space (c : N) : bool :=
  ((0x09 <=? c) && (c <=? 0x0D)) || ((0x1C <=? c) && (c <=? 0x20))
  || (c =? 0x85) || (c =? 0xA0) || (c =? 0x1680)
  || ((0x2000 <=? c) && (c <=? 0x200A))
  || (c =? 0x2028) || (c =? 0x2029) || (c =? 0x202F) || (c =? 0x205F)
  || (c =? 0x3000).

Fixpoint lstrip (s : str) : str :=
  match s with
  | c :: r => if is_space c then lstrip r else s
  | [] => []
  end.

Definition rstrip (s : str) : str := rev (lstrip (rev s)).

(** [s.strip()] *)
Definition strip (s : str) : str := rstrip (lstrip s).

(** [s.rstrip(chars)] for a one-character [chars]. *)
Fixpoint lstrip_char (x : N) (s : str) : str :=
  match s with
  | c :: r => if c =? x then lstrip_char x r else s
  | [] => []
  end.

Definition rstrip_char (x : N) (s : str) : str := rev (lstrip_char x (rev s)).

(** [s.startswith(p)] *)
Fixpoint startswith (s p : str) {struct p} : bool :=
  match p, s with
  | [], _ => true
  | x :: p', c :: s' => (c =? x) && startswith s' p'
  | _ :: _, [] => false
  end.

(** [p in s] *)
Fixpoint contains (p s : str) : bool :=
  startswith s p ||
  match s with
  | [] => false
  | _ :: s' => contains p s'
  end.

(** [s.replace(old, new)] for a non-empty [old]: the occurrences are taken
    from left to right and do not overlap.  [skip] counts the characters of
    the current occurrence that are still to be passed. *)
Fixpoint replace_from (old new : str) (skip : nat) (s : str) : str :=
  match s with
  | [] => []
  | c :: r =>
    match skip with
    | S k => replace_from old new k r
    | O =>
      if startswith s old
      then new ++ replace_from old new (length old - 1) r
      else c :: replace_from old new 0 r
    end
  end.

Definition replace (old new s : str) : str := replace_from old new 0 s.

(** [re.sub(r"\s+", " ", s)]: every maximal run of white space becomes one
    space.  [in_run] tells whether the previous character was white space. *)
Fixpoint collapse_ws_from (in_run : bool) (s : str) : str :=
  match s with
  | [] => []
  | c :: r =>
    if is_space c
    then (if in_run then [] else [0x20]) ++ collapse_ws_from true r
    else c :: collapse_ws_from false r
  end.

Definition collapse_ws (s : str) : str := collapse_ws_from false s.

End Str.
Import Str.

(** ** Exceptions

    The exception classes the program meets, with the part of Python's class
    hierarchy that its [except] clauses look at. *)

Inductive exn_class :=
| ValueError | JSONDecodeError | KeyError | TypeError | IndexError
| UnicodeError | UnicodeEncodeError
| OSError | FileNotFoundError
| RequestException | HTTPError | ConnectionError | Timeout.

Record exn := mk_exn { exn_cls : exn_class; exn_msg : str }.

Definition exn_class_eqb (a b : exn_class) : bool :=
  match a, b with
  | ValueError, ValueError | JSONDecodeError, JSONDecodeError
  | KeyError, KeyError | TypeError, TypeError | IndexError, IndexError
  | UnicodeError, UnicodeError | UnicodeEncodeError, UnicodeEncodeError
  | OSError, OSError | FileNotFoundError, FileNotFoundError
  | RequestException, RequestException | HTTPError, HTTPError
  | ConnectionError, ConnectionError | Timeout, Timeout => true
  | _, _ => false
  end.

(** Direct base class; [None] stands for [Exception]. *)
Definition base_class (c : exn_class) : option exn_class :=
  match c with
  | JSONDecodeError => Some ValueError
  | UnicodeError => Some ValueError
  | UnicodeEncodeError => Some UnicodeError
  | FileNotFoundError => Some OSError
  | RequestException => Some OSError
  | HTTPError | ConnectionError | Timeout => Some RequestException
  | _ => None
  end.

(** [issubclass(c, parent)]; the hierarchy above is three levels deep. *)
Definition issubclass (c parent : exn_class) : bool :=
  exn_class_eqb c parent ||
  match base_class c with
  | None => false
  | Some b =>
    exn_class_eqb b parent ||
    match base_class b with
    | None => false
    | Some b' => exn_class_eqb b' parent
    end
  end.

Inductive result (A : Type) : Type :=
| Ok (a : A)
| Raise (e : exn).
Arguments Ok {A} a.
Arguments Raise {A} e.

Definition bind {A B} (m : result A) (f : A -> result B) : result B :=
  match m with
  | Ok a => f a
  | Raise e => Raise e
  end.

Notation "'let*' x ':=' m 'in' k" := (bind m (fun x => k))
  (at level 10, x name, m at level 100, k at level 200).

(** [try: m except cls: handler] *)
Definition try_except {A} (m : result A) (cls : exn_class)
    (handler : exn -> result A) : result A :=
  match m with
  | Ok a => Ok a
  | Raise e => if issubclass (exn_cls e) cls then handler e else Raise e
  end.

(** A computation that raises nothing but [ValueError]. *)
Definition only_value_error {A} (r : result A) : Prop :=
  forall e, r = Raise e -> exn_cls e = ValueError.

(** ** The regular expressions of the program

    Python's [re] is a backtracking matcher: alternatives are tried from
    left to right, a greedy optional part is tried before its absence, and
    the first way to complete the whole match wins. *)

Module Re.

Inductive regex :=
| Eps
| Cls (p : N -> bool)
| Seq (a b : regex)
| Alt (a b : regex)
| Grp (n : N) (a : regex).

(** The groups matched so far, the latest first; a group is named by its
    number, or by the code point of its one-letter name. *)
Definition groups : Type := list (N * str).

Fixpoint group (n : N) (g : groups) : option str :=
  match g with
  | [] => None
  | (m, s) :: g' => if m =? n then Some s else group n g'
  end.

(** [rmatch r s g k]: match [r] at the head of [s], then go on with [k] on
    the rest; a failure of [k] makes the matcher backtrack. *)
Fixpoint rmatch {A} (r : regex) (s : str) (g : groups)
    (k : str -> groups -> option A) : option A :=
  match r with
  | Eps => k s g
  | Cls p =>
    match s with
    | c :: s' => if p c then k s' g else None
    | [] => None
    end
  | Seq a b => rmatch a s g (fun s' g' => rmatch b s' g' k)
  | Alt a b =>
    match rmatch a s g k with
    | Some x => Some x
    | None => rmatch b s g k
    end
  | Grp n a =>
    rmatch a s g
      (fun s' g' => k s' ((n, take (length s - length s') s) :: g'))
  end.

(** [re.match(r, s)]: the groups and the unmatched rest. *)
Definition re_match (r : regex) (s : str) : option (groups * str) :=
  rmatch r s [] (fun s' g => Some (g, s')).

(** [re.search(r, s)]: the leftmost start at which [r] matches. *)
Fixpoint re_search (r : regex) (s : str) : option groups :=
  match rmatch r s [] (fun _ g => Some g) with
  | Some g => Some g
  | None =>
    match s with
    | [] => None
    | _ :: s' => re_search r s'
    end
  end.

(** One successful path of the matcher: [matches r s g s' g'] when [r]
    consumes a prefix of [s], leaves [s'] and turns the groups [g] into
    [g']. *)
Inductive matches : regex -> str -> groups -> str -> groups -> Prop :=
| M_Eps s g : matches Eps s g s g
| M_Cls p c s g : p c = true -> matches (Cls p) (c :: s) g s g
| M_Seq a b s g s1 g1 s2 g2 :
    matches a s g s1 g1 -> matches b s1 g1 s2 g2 ->
    matches (Seq a b) s g s2 g2
| M_AltL a b s g s' g' : matches a s g s' g' -> matches (Alt a b) s g s' g'
| M_AltR a b s g s' g' : matches b s g s' g' -> matches (Alt a b) s g s' g'
| M_Grp n a s g s' g' :
    matches a s g s' g' ->
    matches (Grp n a) s g s' ((n, take (length s - length s') s) :: g').

(** The least number of characters a match consumes. *)
Fixpoint min_len (r : regex) : nat :=
  match r with
  | Eps => 0
  | Cls _ => 1
  | Seq a b => min_len a + min_len b
  | Alt a b => Nat.min (min_len a) (min_len b)
  | Grp _ a => min_len a
  end.

Definition chr (c : N) : regex := Cls (N.eqb c).
Definition range (lo hi : N) : regex := Cls (fun c => (lo <=? c) && (c <=? hi)).
Definition one_of (cs : str) : regex := Cls (fun c => existsb (N.eqb c) cs).
(** [a?], greedy *)
Definition opt (a : regex) : regex := Alt a Eps.

End Re.
Import Re.

(** ** DateNormalizer *)

Definition DATE_PATTERNS : list str :=
  [u "%Y-%m-%d"; u "%Y/%m/%d"; u "%Y.%m.%d"].

Record date := mk_date { year : N; month : N; day : N }.

Definition is_leap (y : N) : bool :=
  (y mod 4 =? 0) && (negb (y mod 100 =? 0) || (y mod 400 =? 0)).

Definition days_in_month (y m : N) : N :=
  if m =? 2 then (if is_leap y then 29 else 28)
  else if (m =? 4) || (m =? 6) || (m =? 9) || (m =? 11) then 30
  else 31.

Definition value_error (m : string) : exn := mk_exn ValueError (u m).

(** [datetime.date(y, m, d)] *)
Definition make_date (y m d : N) : result date :=
  if (1 <=? y) && (y <=? 9999) && (1 <=? m) && (m <=? 12)
     && (1 <=? d) && (d <=? days_in_month y m)
  then Ok (mk_date y m d)
  else Raise (value_error "date value out of range").

Fixpoint uint_str (d : Decimal.uint) : str :=
  match d with
  | Decimal.Nil => []
  | Decimal.D0 r => ch "0" :: uint_str r
  | Decimal.D1 r => ch "1" :: uint_str r
  | Decimal.D2 r => ch "2" :: uint_str r
  | Decimal.D3 r => ch "3" :: uint_str r
  | Decimal.D4 r => ch "4" :: uint_str r
  | Decimal.D5 r => ch "5" :: uint_str r
  | Decimal.D6 r => ch "6" :: uint_str r
  | Decimal.D7 r => ch "7" :: uint_str r
  | Decimal.D8 r => ch "8" :: uint_str r
  | Decimal.D9 r => ch "9" :: uint_str r
  end.

(** [str(n)] *)
Definition decimal (n : N) : str := uint_str (N.to_uint n).

(** [format(n, "0<w>d")] for [n >= 0] *)
Definition format_0d (w : nat) (n : N) : str :=
  let s := decimal n in repeat (ch "0") (w - length s) ++ s.

(** [%Y] is printed as the C library of Linux prints it, without padding;
    libraries that pad it to four digits agree from the year 1000 on. *)
Definition strftime_directive (d : date) (c : N) : str :=
  if c =? ch "Y" then decimal (year d)
  else if c =? ch "m" then format_0d 2 (month d)
  else if c =? ch "d" then format_0d 2 (day d)
  else [ch "%"; c].

(** [d.strftime(fmt)], for the directives [%Y], [%m] and [%d]. *)
Fixpoint strftime (d : date) (fmt : str) : str :=
  match fmt with
  | [] => []
  | c :: r =>
    if c =? ch "%" then
      match r with
      | [] => [c]
      | x :: r' => strftime_directive d x ++ strftime d r'
      end
    else c :: strftime d r
  end.

Section DateNormalizer.

(** The decimal value of a character of Unicode category Nd outside ASCII:
    the part of the Unicode database that [\d] and [int()] consult for a
    [str].  The table belongs to the interpreter, not to the repository, so
    it is a parameter. *)
Variable nd : N -> option N.

(** No ASCII character but [0-9] is a digit, and no white space is. *)
Definition digit_value (c : N) : option N :=
  if (ch "0" <=? c) && (c <=? ch "9") then Some (c - ch "0")
  else if (c <? 0x80) || is_space c then None
  else nd c.

(** The class [\d] *)
Definition is_digit (c : N) : bool :=
  match digit_value c with Some _ => true | None => false end.

Fixpoint digits_value (acc : N) (s : str) : option N :=
  match s with
  | [] => Some acc
  | c :: r =>
    match digit_value c with
    | Some d => digits_value (acc * 10 + d) r
    | None => None
    end
  end.

(** [int(s)] for the literals the program passes: decimal digits with
    optional white space around them (no sign, no underscore). *)
Definition py_int (s : str) : result N :=
  match strip s with
  | [] => Raise (value_error "invalid literal for int()")
  | t =>
    match digits_value 0 t with
    | Some n => Ok n
    | None => Raise (value_error "invalid literal for int()")
    end
  end.

Definition d_ : regex := Cls is_digit.

(** The regular expression [_strptime] builds for a directive. *)
Definition directive_regex (c : N) : option regex :=
  if c =? ch "Y" then
    (* (?P<Y>\d\d\d\d) *)
    Some (Grp (ch "Y") (Seq d_ (Seq d_ (Seq d_ d_))))
  else if c =? ch "m" then
    (* (?P<m>1[0-2]|0[1-9]|[1-9]) *)
    Some (Grp (ch "m")
            (Alt (Seq (chr (ch "1")) (range (ch "0") (ch "2")))
            (Alt (Seq (chr (ch "0")) (range (ch "1") (ch "9")))
                 (range (ch "1") (ch "9")))))
  else if c =? ch "d" then
    (* (?P<d>3[0-1]|[1-2]\d|0[1-9]|[1-9]| [1-9]) *)
    Some (Grp (ch "d")
            (Alt (Seq (chr (ch "3")) (range (ch "0") (ch "1")))
            (Alt (Seq (range (ch "1") (ch "2")) d_)
            (Alt (Seq (chr (ch "0")) (range (ch "1") (ch "9")))
            (Alt (range (ch "1") (ch "9"))
                 (Seq (chr (ch " ")) (range (ch "1") (ch "9"))))))))
  else None.

(** The regular expression of a format: a directive gives its expression,
    any other character stands for itself.  White space in a format (which
    [_strptime] turns into [\s+]) is not covered: no pattern of
    [DATE_PATTERNS] has any. *)
Fixpoint format_regex (fmt : str) : result regex :=
  match fmt with
  | [] => Ok Eps
  | c :: r =>
    if c =? ch "%" then
      match r with
      | [] => Raise (value_error "stray % in format")
      | x :: r' =>
        match directive_regex x with
        | Some rx => let* rest := format_regex r' in Ok (Seq rx rest)
        | None => Raise (value_error "bad directive in format")
        end
      end
    else if is_space c then Raise (value_error "format not covered")
    else let* rest := format_regex r in Ok (Seq (chr c) rest)
  end.

(** The number of a directive's group, or its default when the format has
    no such directive. *)
Definition int_group (name : N) (g : groups) (default : N) : result N :=
  match group name g with
  | Some s => py_int s
  | None => Ok default
  end.

(** [datetime.strptime(data, fmt)], as far as the date goes. *)
Definition strptime (data fmt : str) : result date :=
  let* rx := format_regex fmt in
  match re_match rx data with
  | None => Raise (value_error "time data does not match format")
  | Some (g, []) =>
    let* y := int_group (ch "Y") g 1900 in
    let* m := int_group (ch "m") g 1 in
    let* d := int_group (ch "d") g 1 in
    make_date y m d
  | Some (_, _ :: _) => Raise (value_error "unconverted data remains")
  end.

(** [(\d{4})[-/.](\d{1,2})[-/.](\d{1,2})] *)
Definition date_regex : regex :=
  let sep := one_of (u "-/.") in
  Seq (Grp 1 (Seq d_ (Seq d_ (Seq d_ d_))))
 (Seq sep
 (Seq (Grp 2 (Seq d_ (opt d_)))
 (Seq sep
      (Grp 3 (Seq d_ (opt d_)))))).

(** [match.groups()] of a match of [date_regex], unpacked into three. *)
Definition groups3 (g : groups) : result (str * str * str) :=
  match group 1 g, group 2 g, group 3 g with
  | Some a, Some b, Some c => Ok (a, b, c)
  | _, _, _ => Raise (mk_exn TypeError (u "group did not take part"))
  end.

(** The [for] loop over the patterns; [otherwise] is the code after it. *)
Fixpoint try_patterns (value : str) (patterns : list str)
    (otherwise : result str) : result str :=
  match patterns with
  | [] => otherwise
  | pattern :: rest =>
    try_except
      (let* d := strptime value pattern in Ok (strftime d (u "%Y-%m-%d")))
      ValueError
      (fun _ => try_patterns value rest otherwise)
  end.

(** The input after the three cleaning steps. *)
Definition clean_date (value : str) : str :=
  let value := strip value in
  let value := collapse_ws value in
  replace (u "日") (u "")
    (replace (u "月") (u "-") (replace (u "年") (u "-") value)).

Definition normalize_date (value : str) : result str :=
  let value := clean_date value in
  try_patterns value DATE_PATTERNS
    match re_search date_regex value with
    | Some g =>
      let* ymd := groups3 g in
      let '(year, month, day) := ymd in
      let* m := py_int month in
      let* d := py_int day in
      Ok (year ++ u "-" ++ format_0d 2 m ++ u "-" ++ format_0d 2 d)
    | None => Ok value
    end.

End DateNormalizer.

(** ** StatusClassifier *)

Definition open_keywords : list str :=
  [u "報名中"; u "開放"; u "可報名"; u "立即報名"].

Definition guess_open_status (text : str) : bool :=
  let text := strip text in
  existsb (fun keyword => contains keyword text) open_keywords.

(** ** Event *)

Record Event := mk_Event {
  name : str;
  location : str;
  race_date : str;
  registration_deadline : str;
  registration_open : bool;
  website : str;
  source : str
}.

(** ** SiteExtractor

    A parsed page is represented by what the selector queries answer on it.
    An element is always true in a condition ([Tag.__bool__]), so
    [if not (a and b)] asks whether [select_one] found something. *)

Record Element := mk_Element {
  get_text : str;              (* el.get_text(strip=True) *)
  attrs : list (str * str)     (* the attributes of the tag *)
}.

Record Item := mk_Item { select_one : str -> option Element }.

Record Soup := mk_Soup { select : str -> list Item }.

(** A response whose body the parser takes; a body that [html.parser]
    rejects is not represented. *)
Record Response := mk_Response {
  status_code : N;
  reason : str;                (* the reason phrase of the status line *)
  response_url : str;          (* response.url, the address finally answered *)
  document : Soup              (* BeautifulSoup(response.text, "html.parser") *)
}.

(** [requests.get(url, timeout=30)]: a response, or an exception. *)
Definition Net : Type := str -> result Response.

(** The text of the HTTPError of [raise_for_status]. *)
Definition http_error_msg (r : Response) : str :=
  decimal (status_code r)
  ++ (if status_code r <? 500 then u " Client Error: " else u " Server Error: ")
  ++ reason r ++ u " for url: " ++ response_url r.

Definition raise_for_status (r : Response) : result unit :=
  if (400 <=? status_code r) && (status_code r <? 600)
  then Raise (mk_exn HTTPError (http_error_msg r))
  else Ok tt.

(** [el.get(key, default)] *)
Fixpoint assoc {V} (key : str) (d : list (str * V)) : option V :=
  match d with
  | [] => None
  | (k, v) :: d' => if decide (k = key) then Some v else assoc key d'
  end.

Definition get (el : Element) (key default : str) : str :=
  match assoc key (attrs el) with
  | Some v => v
  | None => default
  end.

Record Selectors := mk_Selectors {
  sel_item : str;
  sel_name : str;
  sel_race_date : str;
  sel_location : str;
  sel_deadline : str;
  sel_status : str;
  sel_link : str
}.

(** Truth value of a [str] or of a list *)
Definition nonempty {A} (s : list A) : bool :=
  match s with [] => false | _ => true end.

(** The four sub-elements an item needs. *)
Definition required_present (selectors : Selectors) (item : Item) : Prop :=
  is_Some (select_one item (sel_name selectors))
  /\ is_Some (select_one item (sel_race_date selectors))
  /\ is_Some (select_one item (sel_location selectors))
  /\ is_Some (select_one item (sel_link selectors)).

Section Extractor.

Variable nd : N -> option N.

(** The body of the loop over the items: [None] is [continue]. *)
Definition extract_item (url source : str) (selectors : Selectors)
    (item : Item) : result (option Event) :=
  let name_el := select_one item (sel_name selectors) in
  let date_el := select_one item (sel_race_date selectors) in
  let location_el := select_one item (sel_location selectors) in
  let deadline_el := select_one item (sel_deadline selectors) in
  let status_el := select_one item (sel_status selectors) in
  let link_el := select_one item (sel_link selectors) in
  match name_el, date_el, location_el, link_el with
  | Some name_el, Some date_el, Some location_el, Some link_el =>
    let name := get_text name_el in
    let* race_date := normalize_date nd (get_text date_el) in
    let location := get_text location_el in
    let* registration_deadline :=
      match deadline_el with
      | Some deadline_el => normalize_date nd (get_text deadline_el)
      | None => Ok (u "")
      end in
    let status_text :=
      match status_el with
      | Some status_el => get_text status_el
      | None => u ""
      end in
    let registration_open := guess_open_status status_text in
    let website := get link_el (u "href") (u "") in
    let website :=
      if nonempty website && startswith website (u "/")
      then rstrip_char (ch "/") url ++ website
      else website in
    Ok (Some {| name := name;
                location := location;
                race_date := race_date;
                registration_deadline := registration_deadline;
                registration_open := registration_open;
                website := website;
                source := source |})
  | _, _, _, _ => Ok None
  end.

(** What an item contributes to the list. *)
Definition event_of (url source : str) (selectors : Selectors)
    (item : Item) : option Event :=
  match extract_item url source selectors item with
  | Ok (Some event) => Some event
  | _ => None
  end.

Fixpoint extract_items (url source : str) (selectors : Selectors)
    (items : list Item) (events : list Event) : result (list Event) :=
  match items with
  | [] => Ok events
  | item :: rest =>
    let* r := extract_item url source selectors item in
    extract_items url source selectors rest
      match r with
      | Some event => events ++ [event]
      | None => events
      end
  end.

Definition extract_generic (net : Net) (url source : str)
    (selectors : Selectors) : result (list Event) :=
  let* response := net url in
  let* _ := raise_for_status response in
  let soup := document response in
  let items := select soup (sel_item selectors) in
  extract_items url source selectors items [].

(** ** SourceRegistry *)

Definition irunner_url : str := u "https://www.irunner.com.tw/".
Definition running_biji_url : str :=
  u "https://www.running.biji.co/index.php?q=competition".
Definition sponet_url : str := u "https://www.sponet.tw/".

Definition irunner_selectors : Selectors :=
  {| sel_item := u ".race_list li";
     sel_name := u ".race_name";
     sel_race_date := u ".race_date";
     sel_location := u ".race_city";
     sel_deadline := u ".race_signup";
     sel_status := u ".race_status";
     sel_link := u "a" |}.

Definition fetch_irunner (net : Net) : result (list Event) :=
  extract_generic net irunner_url (u "iRunner") irunner_selectors.

Definition running_biji_selectors : Selectors :=
  {| sel_item := u ".competition-list .item";
     sel_name := u ".title";
     sel_race_date := u ".date";
     sel_location := u ".location";
     sel_deadline := u ".signup";
     sel_status := u ".status";
     sel_link := u "a" |}.

Definition fetch_running_biji (net : Net) : result (list Event) :=
  extract_generic net running_biji_url (u "跑步筆記") running_biji_selectors.

Definition sponet_selectors : Selectors :=
  {| sel_item := u ".event-list .event-item";
     sel_name := u ".event-title";
     sel_race_date := u ".event-date";
     sel_location := u ".event-location";
     sel_deadline := u ".event-deadline";
     sel_status := u ".event-status";
     sel_link := u "a" |}.

Definition fetch_sponet (net : Net) : result (list Event) :=
  extract_generic net sponet_url (u "SPORTNET") sponet_selectors.

End Extractor.

(** ** Deduplicator *)

Definition event_key (event : Event) : str * str * str :=
  (name event, race_date event, location event).

(** The [for] loop, with the two variables it updates. *)
Fixpoint dedupe_loop (events : list Event) (seen : gset (str * str * str))
    (output : list Event) : list Event :=
  match events with
  | [] => output
  | event :: rest =>
    let key := event_key event in
    if decide (key ∈ seen) then dedupe_loop rest seen output
    else dedupe_loop rest ({[key]} ∪ seen) (output ++ [event])
  end.

Definition dedupe_events (events : list Event) : list Event :=
  dedupe_loop events ∅ [].

(** Position [i] holds the first occurrence of its key: no earlier position
    of [events] holds an event with the same key. *)
Definition first_occurrence (events : list Event) (i : nat) : bool :=
  match events !! i with
  | Some event => bool_decide (event_key event ∉ event_key <$> take i events)
  | None => false
  end.

(** The positions of the first occurrences, in increasing order. *)
Definition first_positions (events : list Event) : list nat :=
  List.filter (first_occurrence events) (seq 0 (length events)).

Definition keys_of (events : list Event) : gset (str * str * str) :=
  list_to_set (event_key <$> events).

(** ** Files and the console

    A file that holds a JSON text is represented by the value the text
    denotes: [json.dump] and [json.load] are the library's pair of printer
    and parser, and the model starts from the values they exchange.
    Numbers are integers.  Paths are taken as they are written: two
    spellings of the path of one file are not identified. *)

Inductive json :=
| JNull
| JBool (b : bool)
| JInt (z : Z)
| JStr (s : str)
| JList (l : list json)
| JDict (d : list (str * json)).

(** What the file system has at a path. *)
Inductive node :=
| Text (doc : json)      (* a file with the JSON text of [doc] *)
| Broken (error : exn)   (* a file [json.load] cannot read, and what it
                            raises: an empty, cut or malformed text *)
| Refused (error : exn). (* a path [open] refuses, and what it raises: a
                            directory, a path below a missing directory *)

Record World := mk_World {
  files : gmap str node;
  stdout : list str
}.

(** A computation that reads and writes the world and may raise. *)
Definition io (A : Type) : Type := World -> result A * World.

Definition io_ret {A} (a : A) : io A := fun w => (Ok a, w).

Definition io_bind {A B} (m : io A) (f : A -> io B) : io B :=
  fun w =>
    match m w with
    | (Ok a, w') => f a w'
    | (Raise e, w') => (Raise e, w')
    end.

Notation "'do*' x ':=' m 'in' k" := (io_bind m (fun x => k))
  (at level 10, x name, m at level 100, k at level 200).

Definition lift {A} (r : result A) : io A := fun w => (r, w).

Definition print (line : str) : io unit :=
  fun w => (Ok tt, {| files := files w; stdout := stdout w ++ [line] |}).

(** The paths [open] refuses on every system: the empty path, and a path
    with a NUL character. *)
Definition path_error (path : str) : option exn :=
  match path with
  | [] => Some (mk_exn FileNotFoundError (u "No such file or directory"))
  | _ =>
    if existsb (N.eqb 0) path
    then Some (mk_exn ValueError (u "embedded null byte"))
    else None
  end.

(** [with open(path, "r", encoding="utf-8") as file: json.load(file)] *)
Definition json_load (path : str) : io json :=
  fun w =>
    match path_error path with
    | Some error => (Raise error, w)
    | None =>
      match files w !! path with
      | Some (Text data) => (Ok data, w)
      | Some (Broken error) => (Raise error, w)
      | Some (Refused error) => (Raise error, w)
      | None => (Raise (mk_exn FileNotFoundError path), w)
      end
    end.

(** The code points U+D800..U+DFFF have no UTF-8 encoding. *)
Definition is_surrogate (c : N) : bool := (0xD800 <=? c) && (c <=? 0xDFFF).

(** [s.encode("utf-8")] succeeds. *)
Definition encodable (s : str) : bool :=
  forallb (fun c => negb (is_surrogate c)) s.

Fixpoint json_encodable (v : json) : bool :=
  match v with
  | JStr s => encodable s
  | JList l => forallb json_encodable l
  | JDict d =>
    forallb (fun kv => encodable (fst kv) && json_encodable (snd kv)) d
  | _ => true
  end.

(** What is left of a file whose writing stopped half-way. *)
Definition cut_short : node :=
  Broken (mk_exn JSONDecodeError (u "Expecting value")).

(** [with open(path, "w", encoding="utf-8") as file:
       json.dump(payload, file, ensure_ascii=False, indent=2)
       file.write("\n")]
    Opening empties the file.  The text is encoded piece by piece while it
    is written, so a string that UTF-8 cannot encode stops the writing after
    the file has been emptied. *)
Definition json_dump (path : str) (payload : json) : io unit :=
  fun w =>
    match path_error path, files w !! path with
    | Some error, _ => (Raise error, w)
    | None, Some (Refused error) => (Raise error, w)
    | None, _ =>
      if json_encodable payload
      then (Ok tt, {| files := <[path := Text payload]> (files w);
                      stdout := stdout w |})
      else (Raise (mk_exn UnicodeEncodeError (u "surrogates not allowed")),
            {| files := <[path := cut_short]> (files w);
               stdout := stdout w |})
    end.

Definition type_error (m : string) : exn := mk_exn TypeError (u m).

(** [v[key]] for a string [key] *)
Definition getitem (v : json) (key : str) : result json :=
  match v with
  | JDict d =>
    match assoc key d with
    | Some x => Ok x
    | None => Raise (mk_exn KeyError key)
    end
  | _ => Raise (type_error "indices must be integers")
  end.

(** [for item in v] *)
Definition iterate (v : json) : result (list json) :=
  match v with
  | JList l => Ok l
  | JDict d => Ok (map (fun kv => JStr (fst kv)) d)
  | JStr s => Ok (map (fun c => JStr [c]) s)
  | _ => Raise (type_error "object is not iterable")
  end.

(** The fields of an [Event] are typed as the dataclass declares them.  The
    loader of the program stores whatever value the file has under a key; a
    value of another type has no counterpart in [Event], and the loader of
    the model stops at it. *)
Definition as_str (v : json) : result str :=
  match v with
  | JStr s => Ok s
  | _ => Raise (type_error "str expected")
  end.

Definition as_bool (v : json) : result bool :=
  match v with
  | JBool b => Ok b
  | _ => Raise (type_error "bool expected")
  end.

(** ** FallbackLoader *)

Definition event_of_json (item : json) : result Event :=
  let* name := bind (getitem item (u "name")) as_str in
  let* location := bind (getitem item (u "location")) as_str in
  let* race_date := bind (getitem item (u "raceDate")) as_str in
  let* registration_deadline :=
    bind (getitem item (u "registrationDeadline")) as_str in
  let* registration_open :=
    bind (getitem item (u "registrationOpen")) as_bool in
  let* website := bind (getitem item (u "website")) as_str in
  let* source := bind (getitem item (u "source")) as_str in
  Ok {| name := name;
        location := location;
        race_date := race_date;
        registration_deadline := registration_deadline;
        registration_open := registration_open;
        website := website;
        source := source |}.

Fixpoint events_of_json (items : list json) : result (list Event) :=
  match items with
  | [] => Ok []
  | item :: rest =>
    let* event := event_of_json item in
    let* events := events_of_json rest in
    Ok (event :: events)
  end.

(** The list comprehension over [data["events"]]. *)
Definition events_of_document (data : json) : result (list Event) :=
  let* events := getitem data (u "events") in
  let* items := iterate events in
  events_of_json items.

Definition load_fallback_events (path : str) : io (list Event) :=
  do* data := json_load path in
  lift (events_of_document data).

(** ** Writer *)

Definition json_of_event (event : Event) : json :=
  JDict [ (u "name", JStr (name event));
          (u "location", JStr (location event));
          (u "raceDate", JStr (race_date event));
          (u "registrationDeadline", JStr (registration_deadline event));
          (u "registrationOpen", JBool (registration_open event));
          (u "website", JStr (website event));
          (u "source", JStr (source event)) ].

Definition payload_of (generated_at : str) (events : list Event) : json :=
  JDict [ (u "generatedAt", JStr generated_at);
          (u "events", JList (map json_of_event events)) ].

(** [now] is the reading of the clock,
    [datetime.now().astimezone().isoformat(timespec="seconds")]. *)
Definition write_events (now : str) (path : str) (events : list Event)
    : io unit :=
  json_dump path (payload_of now events).

(** ** Orchestrator *)

Record Args := mk_Args { output : str; fallback : str }.

Definition default_args : Args :=
  {| output := u "data/events.json"; fallback := u "data/events.json" |}.

Record Fetcher := mk_Fetcher {
  fetcher_name : str;                       (* fetcher.__name__ *)
  fetcher_call : Net -> result (list Event) (* fetcher() *)
}.

Definition warning_line (fetcher : Fetcher) (error : exn) : str :=
  u "警告: 無法抓取 " ++ fetcher_name fetcher ++ u ": " ++ exn_msg error.

Definition fallback_line : str := u "未取得任何賽事，改用 fallback 資料。".

Definition summary_line (events : list Event) (args : Args) : str :=
  u "已輸出 " ++ decimal (N.of_nat (length events)) ++ u " 場賽事至 "
  ++ output args.

(** The loop over the fetchers, with the list it extends. *)
Fixpoint run_fetchers (net : Net) (fetchers : list Fetcher)
    (events : list Event) : io (list Event) :=
  match fetchers with
  | [] => io_ret events
  | fetcher :: rest =>
    match fetcher_call fetcher net with
    | Ok fetched => run_fetchers net rest (events ++ fetched)
    | Raise error =>
      if issubclass (exn_cls error) RequestException
      then do* _ := print (warning_line fetcher error) in
           run_fetchers net rest events
      else lift (Raise error)
    end
  end.

(** The part of [main] after the loop. *)
Definition finish (now : str) (args : Args) (events : list Event) : io unit :=
  do* events :=
    (if nonempty events then io_ret events
     else do* _ := print fallback_line in
          load_fallback_events (fallback args)) in
  let events := dedupe_events events in
  do* _ := write_events now (output args) events in
  print (summary_line events args).

Definition main_with (fetchers : list Fetcher) (net : Net) (now : str)
    (args : Args) : io unit :=
  do* events := run_fetchers net fetchers [] in
  finish now args events.

Definition registry (nd : N -> option N) : list Fetcher :=
  [ {| fetcher_name := u "fetch_irunner"; fetcher_call := fetch_irunner nd |};
    {| fetcher_name := u "fetch_running_biji";
       fetcher_call := fetch_running_biji nd |};
    {| fetcher_name := u "fetch_sponet"; fetcher_call := fetch_sponet nd |} ].

Definition main (nd : N -> option N) : Net -> str -> Args -> io unit :=
  main_with (registry nd).


(** ** Vocabulary of the properties *)

(** The class [[0-9]] *)
Definition ascii_digit (c : N) : bool := (ch "0" <=? c) && (c <=? ch "9").

(** The number a run of ASCII digits writes, after the digits in [acc]. *)
Fixpoint ascii_value (acc : N) (s : str) : N :=
  match s with
  | [] => acc
  | c :: r => ascii_value (acc * 10 + (c - ch "0")) r
  end.

Definition digit_chars : list N :=
  map (fun d => ch "0" + d) [0; 1; 2; 3; 4; 5; 6; 7; 8; 9].

(** A text of the shape dddd-dd-dd. *)
Definition canonical (a b c d e f g h : N) : str :=
  [a; b; c; d; ch "-"; e; f; ch "-"; g; h].

(** One or two digits, written with two: a zero goes before a single one. *)
Definition zero_padded (digits : str) : str :=
  repeat (ch "0") (2 - length digits) ++ digits.

(** One or two ASCII digits. *)
Definition short_number (digits : str) : Prop :=
  (1 <= length digits <= 2)%nat /\ forallb ascii_digit digits = true.

(** The separators of [date_regex]. *)
Definition date_separators : str := u "-/.".

(** A year of four characters, a month and a day, with a separator before
    each of the two. *)
Definition loose (a b c d s1 : N) (month : str) (s2 : N) (day : str) : str :=
  [a; b; c; d] ++ s1 :: month ++ s2 :: day.

Section DirectiveRegex.

Variable nd : N -> option N.

(** The expressions of [directive_regex], by name. *)
Definition regex_Y : regex :=
  Grp (ch "Y") (Seq (d_ nd) (Seq (d_ nd) (Seq (d_ nd) (d_ nd)))).

Definition regex_m : regex :=
  Grp (ch "m")
    (Alt (Seq (chr (ch "1")) (range (ch "0") (ch "2")))
    (Alt (Seq (chr (ch "0")) (range (ch "1") (ch "9")))
         (range (ch "1") (ch "9")))).

Definition regex_d : regex :=
  Grp (ch "d")
    (Alt (Seq (chr (ch "3")) (range (ch "0") (ch "1")))
    (Alt (Seq (range (ch "1") (ch "2")) (d_ nd))
    (Alt (Seq (chr (ch "0")) (range (ch "1") (ch "9")))
    (Alt (range (ch "1") (ch "9"))
         (Seq (chr (ch " ")) (range (ch "1") (ch "9"))))))).

Definition regex_ymd (sep : N) : regex :=
  Seq regex_Y (Seq (chr sep) (Seq regex_m (Seq (chr sep) (Seq regex_d Eps)))).

End DirectiveRegex.

(** What a fetcher adds to the list, and the warning it causes. *)
Definition fetched (net : Net) (fetcher : Fetcher) : list Event :=
  match fetcher_call fetcher net with
  | Ok events => events
  | Raise _ => []
  end.

Definition warning_of (net : Net) (fetcher : Fetcher) : option str :=
  match fetcher_call fetcher net with
  | Ok _ => None
  | Raise error => Some (warning_line fetcher error)
  end.

(** A fetcher whose failure, if any, is of the network class. *)
Definition tolerated (net : Net) (fetcher : Fetcher) : Prop :=
  forall error,
    fetcher_call fetcher net = Raise error ->
    issubclass (exn_cls error) RequestException = true.

(** The names of the fields of a persisted event. *)
Definition event_fields : list str :=
  [u "name"; u "location"; u "raceDate"; u "registrationDeadline";
   u "registrationOpen"; u "website"; u "source"].

(** A JSON object without one of its keys. *)
Definition without (key : str) (item : json) : json :=
  match item with
  | JDict d => JDict (filter (fun kv => fst kv <> key) d)
  | _ => item
  end.

(** What opening and parsing the fallback file gives. *)
Definition fallback_document (w : World) (path : str) : result (list Event) :=
  match path_error path with
  | Some error => Raise error
  | None =>
    match files w !! path with
    | Some (Text data) => events_of_document data
    | Some (Broken error) => Raise error
    | Some (Refused error) => Raise error
    | None => Raise (mk_exn FileNotFoundError path)
    end
  end.

(** The list [main] goes on with after the loop: the scraped events, or the
    events of the fallback file when nothing was scraped. *)
Definition chosen_events (w : World) (args : Args) (events : list Event)
    : result (list Event) :=
  if nonempty events then Ok events else fallback_document w (fallback args).



(** The file at [path] holds the JSON text of [data]. *)
Definition stored (w : World) (path : str) (data : json) : Prop :=
  path_error path = None /\ files w !! path = Some (Text data).



(** The ways in which the fallback file fails to load, with the class of the
    exception: no file at the path, a path [open] refuses, a text that is
    no JSON document, a document that is no object, an object without the
    key "events". *)
Inductive unloadable (w : World) (path : str) : exn_class -> Prop :=
| unloadable_path error :
    path_error path = Some error -> unloadable w path (exn_cls error)
| unloadable_missing :
    path_error path = None -> files w !! path = None ->
    unloadable w path FileNotFoundError
| unloadable_refused error :
    path_error path = None -> files w !! path = Some (Refused error) ->
    unloadable w path (exn_cls error)
| unloadable_broken error :
    path_error path = None -> files w !! path = Some (Broken error) ->
    unloadable w path (exn_cls error)
| unloadable_no_object data :
    stored w path data -> (forall d, data <> JDict d) ->
    unloadable w path TypeError
| unloadable_no_events d :
    stored w path (JDict d) -> assoc (u "events") d = None ->
    unloadable w path KeyError.

(** ** Sample data *)

Module Sample.

(** A digit table with the ASCII digits only. *)
Definition ascii_digits : N -> option N := fun _ => None.

Definition el (text : string) : Element := mk_Element (u text) [].

Definition link (href : string) : Element :=
  mk_Element (u "") [(u "href", u href)].

Definition item_of (subs : list (str * Element)) : Item :=
  mk_Item (fun selector => assoc selector subs).

Definition taipei : Item :=
  item_of [ (u ".race_name", el "台北馬拉松");
            (u ".race_date", el "2024年12月15日");
            (u ".race_city", el "台北");
            (u ".race_signup", el "2024/9/30");
            (u ".race_status", el "報名中");
            (u "a", link "/races/taipei") ].

Definition no_name : Item :=
  item_of [ (u ".race_date", el "2024年11月3日");
            (u ".race_city", el "高雄");
            (u "a", link "/races/kaohsiung") ].

(** No deadline, no status, and a link without href. *)
Definition bare : Item :=
  item_of [ (u ".race_name", el "田中馬拉松");
            (u ".race_date", el "2024.11.10");
            (u ".race_city", el "彰化");
            (u "a", el "") ].

Definition taipei_event : Event :=
  {| name := u "台北馬拉松";
     location := u "台北";
     race_date := u "2024-12-15";
     registration_deadline := u "2024-09-30";
     registration_open := true;
     website := u "https://www.irunner.com.tw/races/taipei";
     source := u "iRunner" |}.

Definition bare_event : Event :=
  {| name := u "田中馬拉松";
     location := u "彰化";
     race_date := u "2024-11-10";
     registration_deadline := u "";
     registration_open := false;
     website := u "";
     source := u "iRunner" |}.

Definition kaohsiung_event : Event :=
  {| name := u "高雄馬拉松";
     location := u "高雄";
     race_date := u "2025-01-12";
     registration_deadline := u "2024-10-31";
     registration_open := false;
     website := u "https://example.org/kaohsiung";
     source := u "SPORTNET" |}.

Definition taroko_event : Event :=
  {| name := u "太魯閣馬拉松";
     location := u "花蓮";
     race_date := u "2024-11-02";
     registration_deadline := u "2024-08-15";
     registration_open := true;
     website := u "https://example.org/taroko";
     source := u "跑步筆記" |}.

Definition four_events : list Event :=
  [taipei_event; bare_event; kaohsiung_event; taroko_event].

(** Every request fails. *)
Definition offline : Net :=
  fun _ => Raise (mk_exn ConnectionError (u "unreachable")).

(** The first site answers with the sample page, the second one times
    out, the third one answers with an empty page. *)
Definition flaky : Net :=
  fun url =>
    if decide (url = irunner_url) then
      Ok {| status_code := 200; reason := u "OK"; response_url := url;
            document := mk_Soup (fun _ => [taipei; no_name; bare]) |}
    else if decide (url = running_biji_url) then
      Raise (mk_exn Timeout (u "timed out"))
    else Ok {| status_code := 200; reason := u "OK"; response_url := url;
               document := mk_Soup (fun _ => []) |}.

(** The third request fails with an exception that is no network error. *)
Definition broken : Net :=
  fun url =>
    if decide (url = sponet_url) then
      Raise (mk_exn TypeError (u "unexpected"))
    else Raise (mk_exn ConnectionError (u "unreachable")).

(** A record that differs from [taipei_event] and has the same key. *)
Definition taipei_again : Event :=
  {| name := u "台北馬拉松";
     location := u "台北";
     race_date := u "2024-12-15";
     registration_deadline := u "";
     registration_open := false;
     website := u "https://example.org/taipei";
     source := u "SPORTNET" |}.

Definition biji_item : Item :=
  item_of [ (u ".title", el "太魯閣馬拉松");
            (u ".date", el "2024/11/2");
            (u ".location", el "花蓮");
            (u "a", link "/competition/7") ].

Definition old_stamp : str := u "2024-06-01T08:00:00+08:00".
Definition new_stamp : str := u "2024-06-02T08:00:00+08:00".

(** A world whose only file is an earlier output with four events. *)
Definition world : World :=
  {| files := {[ u "data/events.json" :=
                   Text (payload_of old_stamp four_events) ]};
     stdout := [] |}.

(** Every request is answered with status 404. *)
Definition not_found : Net :=
  fun url => Ok {| status_code := 404; reason := u "Not Found";
                   response_url := url; document := mk_Soup (fun _ => []) |}.

(** A world without files. *)
Definition empty_world : World := {| files := ∅; stdout := [] |}.



End Sample.

(** * Properties *)

(** *** Facts about the matcher *)

Lemma matches_Eps_inv s g s' g' :
  matches Eps s g s' g' -> s' = s /\ g' = g.
Proof. by inversion 1. Qed.

Lemma matches_Cls_inv p s g s' g' :
  matches (Cls p) s g s' g' -> exists c, s = c :: s' /\ g' = g /\ p c = true.
Proof. inversion 1; subst. by eexists. Qed.

Lemma matches_Seq_inv a b s g s2 g2 :
  matches (Seq a b) s g s2 g2 ->
  exists s1 g1, matches a s g s1 g1 /\ matches b s1 g1 s2 g2.
Proof. inversion 1; subst. by eexists _, _. Qed.

Lemma matches_Alt_inv a b s g s' g' :
  matches (Alt a b) s g s' g' -> matches a s g s' g' \/ matches b s g s' g'.
Proof. inversion 1; subst; [by left | by right]. Qed.

Lemma matches_Grp_inv n a s g s' g' :
  matches (Grp n a) s g s' g' ->
  exists g0, matches a s g s' g0
             /\ g' = (n, take (length s - length s') s) :: g0.
Proof. inversion 1; subst. by eexists. Qed.

Lemma rmatch_sound {A} (r : regex) :
  forall s g (k : str -> groups -> option A) x,
    rmatch r s g k = Some x ->
    exists s' g', matches r s g s' g' /\ k s' g' = Some x.
Proof.
  induction r as [|p|a IHa b IHb|a IHa b IHb|n a IHa]; intros s g k x H; simpl in H.
  - exists s, g. split; [constructor | exact H].
  - destruct s as [|c s']; [discriminate|].
    destruct (p c) eqn:Hp; [|discriminate].
    exists s', g. split; [by constructor | exact H].
  - apply IHa in H as (s1 & g1 & Ha & H).
    apply IHb in H as (s2 & g2 & Hb & H).
    exists s2, g2. split; [econstructor; eassumption | exact H].
  - destruct (rmatch a s g k) eqn:Ha.
    + inversion H; subst. apply IHa in Ha as (s' & g' & Hm & Hk).
      exists s', g'. split; [by apply M_AltL | exact Hk].
    + apply IHb in H as (s' & g' & Hm & Hk).
      exists s', g'. split; [by apply M_AltR | exact Hk].
  - apply IHa in H as (s' & g' & Hm & Hk).
    eexists _, _. split; [apply M_Grp; eassumption | exact Hk].
Qed.

Lemma re_search_sound (r : regex) (s : str) (g : groups) :
  re_search r s = Some g ->
  exists s0 s', matches r s0 [] s' g /\ (length s0 <= length s)%nat.
Proof.
  induction s as [|c s IH]; simpl; intros H.
  - destruct (rmatch r [] [] _) eqn:Hm; [|discriminate].
    inversion H; subst. apply rmatch_sound in Hm as (s' & g' & Hm & Hk).
    inversion Hk; subst. by exists [], s'.
  - destruct (rmatch r (c :: s) [] _) eqn:Hm.
    + inversion H; subst. apply rmatch_sound in Hm as (s' & g' & Hm & Hk).
      inversion Hk; subst. by exists (c :: s), s'.
    + destruct (IH H) as (s0 & s' & Hm' & Hl). exists s0, s'. split; [done|lia].
Qed.

Lemma matches_length r s g s' g' :
  matches r s g s' g' -> (min_len r + length s' <= length s)%nat.
Proof. induction 1; simpl in *; lia. Qed.

(** ** Text *)

Lemma startswith_spec (p s : str) :
  startswith s p = true <-> exists post, s = p ++ post.
Proof.
  revert s. induction p as [|x p IH]; intros s; simpl.
  - split; [intros _; by exists s | done].
  - destruct s as [|c s]; simpl.
    + split; [done | intros [post H]; discriminate].
    + rewrite andb_true_iff, N.eqb_eq, IH. split.
      * intros [-> [post ->]]. by exists post.
      * intros [post H]. inversion H; subst. split; [done | by exists post].
Qed.

Lemma contains_spec (p s : str) :
  contains p s = true <-> exists pre post, s = pre ++ p ++ post.
Proof.
  induction s as [|c s IH]; simpl; rewrite orb_true_iff, startswith_spec.
  - split.
    + intros [[post H] | H]; [|done]. by exists [], post.
    + intros ([|c pre] & post & H); [left; by exists post | discriminate].
  - rewrite IH. split.
    + intros [[post H] | (pre & post & H)].
      * by exists [], post.
      * exists (c :: pre), post. by rewrite H.
    + intros ([|c' pre] & post & H).
      * left. by exists post.
      * right. inversion H; subst. by exists pre, post.
Qed.

Lemma lstrip_keeps (pre rest : str) (k : N) :
  is_space k = false ->
  exists pre', lstrip (pre ++ k :: rest) = pre' ++ k :: rest.
Proof.
  intros Hk. induction pre as [|c pre IH]; simpl.
  - exists []. by rewrite Hk.
  - destruct (is_space c); [exact IH | by exists (c :: pre)].
Qed.

Lemma rstrip_keeps (rest post : str) (k : N) :
  is_space k = false ->
  exists post', rstrip (rest ++ k :: post) = rest ++ k :: post'.
Proof.
  intros Hk. unfold rstrip.
  rewrite rev_app_distr. simpl. rewrite <- app_assoc. simpl.
  destruct (lstrip_keeps (rev post) (rev rest) k Hk) as [pre' ->].
  exists (rev pre'). rewrite rev_app_distr. simpl.
  by rewrite rev_involutive, <- app_assoc.
Qed.

(** Stripping keeps an occurrence of a word that has no white space. *)
Lemma strip_keeps (pre w post : str) :
  w <> [] -> forallb (fun c => negb (is_space c)) w = true ->
  exists pre' post', strip (pre ++ w ++ post) = pre' ++ w ++ post'.
Proof.
  intros Hne Hw. unfold strip.
  destruct w as [|k w]; [done|]. clear Hne.
  simpl in Hw. apply andb_true_iff in Hw as [Hk Hw].
  apply negb_true_iff in Hk.
  change (pre ++ (k :: w) ++ post) with (pre ++ k :: w ++ post).
  destruct (lstrip_keeps pre (w ++ post) k Hk) as [pre' ->].
  exists pre'.
  destruct (rev w) as [|l w'] eqn:Hrev.
  - apply (f_equal (@rev N)) in Hrev. rewrite rev_involutive in Hrev.
    simpl in Hrev. subst w. simpl.
    destruct (rstrip_keeps pre' post k Hk) as [post' ->]. by exists post'.
  - apply (f_equal (@rev N)) in Hrev. rewrite rev_involutive in Hrev.
    simpl in Hrev. subst w.
    assert (Hl : is_space l = false).
    { rewrite forallb_app in Hw. apply andb_true_iff in Hw as [_ Hw].
      simpl in Hw. rewrite andb_true_r in Hw. by apply negb_true_iff. }
    assert (E : forall t : str,
               pre' ++ k :: (rev w' ++ [l]) ++ t
               = (pre' ++ k :: rev w') ++ l :: t).
    { intros t. by rewrite <- !app_assoc. }
    rewrite E.
    destruct (rstrip_keeps (pre' ++ k :: rev w') post l Hl) as [post' ->].
    exists post'. symmetry. apply E.
Qed.

(** ** StatusClassifier *)

Lemma guess_open_status_iff (text : str) :
  guess_open_status text = true <->
  exists keyword pre post,
    keyword ∈ open_keywords /\ strip text = pre ++ keyword ++ post.
Proof.
  unfold guess_open_status. rewrite existsb_exists. split.
  - intros (kw & Hin & Hc). apply contains_spec in Hc as (pre & post & H).
    exists kw, pre, post. split; [by apply list_elem_of_In | exact H].
  - intros (kw & pre & post & Hin & H). exists kw.
    split; [by apply list_elem_of_In |].
    apply contains_spec. by exists pre, post.
Qed.

(** Every keyword is a non-empty word without white space. *)
Lemma open_keywords_words :
  Forall (fun kw : str =>
            kw <> [] /\ forallb (fun c => negb (is_space c)) kw = true)
         open_keywords.
Proof. repeat constructor; done. Qed.

(** C7. [guess_open_status] is true on "報名中", false on "已截止" and on the
    empty string, and in general it is true exactly when the stripped text
    contains one of the fixed keywords (so it is false for an empty or a
    non-matching text). *)
Theorem guess_open_status_spec :
  guess_open_status (u "報名中") = true /\
  guess_open_status (u "已截止") = false /\
  guess_open_status (u "") = false /\
  forall text : str,
    guess_open_status text = true <->
    exists keyword pre post,
      keyword ∈ open_keywords /\ strip text = pre ++ keyword ++ post.
Proof.
  split; [reflexivity|]. split; [reflexivity|]. split; [reflexivity|].
  exact guess_open_status_iff.
Qed.



(** ** DateNormalizer *)

Section DateNormalizerFacts.

Variable nd : N -> option N.

Lemma digit_not_space (c : N) : is_digit nd c = true -> is_space c = false.
Proof.
  unfold is_digit, digit_value.
  destruct ((ch "0" <=? c) && (c <=? ch "9")) eqn:Hd.
  - intros _. apply andb_true_iff in Hd as [H0 H9].
    apply N.leb_le in H0, H9. unfold ch in H0, H9. simpl in H0, H9.
    destruct (is_space c) eqn:E; [|done]. exfalso.
    unfold is_space in E.
    rewrite !orb_true_iff, !andb_true_iff, !N.leb_le, !N.eqb_eq in E. lia.
  - destruct ((c <? 0x80) || is_space c) eqn:E; [done|].
    intros _. by apply orb_false_iff in E as [_ E].
Qed.

Lemma lstrip_id (s : str) :
  forallb (fun c => negb (is_space c)) s = true -> lstrip s = s.
Proof.
  destruct s as [|c s]; simpl; [done|].
  intros H. apply andb_true_iff in H as [H _].
  apply negb_true_iff in H. by rewrite H.
Qed.

Lemma strip_id (s : str) :
  forallb (fun c => negb (is_space c)) s = true -> strip s = s.
Proof.
  intros H. unfold strip, rstrip. rewrite (lstrip_id s H).
  rewrite lstrip_id; [apply rev_involutive|].
  rewrite forallb_forall in *. intros c Hc. apply H. by apply in_rev.
Qed.

Lemma digits_value_ok (s : str) :
  forallb (is_digit nd) s = true ->
  forall acc, exists n, digits_value nd acc s = Some n.
Proof.
  induction s as [|c s IH]; simpl; intros H acc; [by exists acc|].
  apply andb_true_iff in H as [Hc Hs]. unfold is_digit in Hc.
  destruct (digit_value nd c); [|done]. by apply IH.
Qed.

(** [int()] accepts every non-empty run of digits. *)
Lemma py_int_digits (s : str) :
  s <> [] -> forallb (is_digit nd) s = true -> exists n, py_int nd s = Ok n.
Proof.
  intros Hne Hd. unfold py_int. rewrite strip_id.
  - destruct (digits_value_ok s Hd 0) as [n Hn].
    destruct s; [done|]. rewrite Hn. by exists n.
  - rewrite forallb_forall in *. intros c Hc.
    apply negb_true_iff, digit_not_space. by apply Hd.
Qed.

(** What [\d{1,2}] consumes. *)
Lemma d12_inv (s s' : str) (g g' : groups) :
  matches (Seq (d_ nd) (opt (d_ nd))) s g s' g' ->
  g' = g /\ exists w, s = w ++ s' /\ w <> [] /\ forallb (is_digit nd) w = true.
Proof.
  intros H.
  apply matches_Seq_inv in H as (s1 & g1 & H1 & H2).
  apply matches_Cls_inv in H1 as (c1 & -> & -> & Hc1).
  apply matches_Alt_inv in H2 as [H2 | H2].
  - apply matches_Cls_inv in H2 as (c2 & -> & -> & Hc2).
    split; [done|]. exists [c1; c2]. simpl. by rewrite Hc1, Hc2.
  - apply matches_Eps_inv in H2 as [-> ->].
    split; [done|]. exists [c1]. simpl. by rewrite Hc1.
Qed.

Lemma take_consumed (w s' : str) :
  take (length (w ++ s') - length s') (w ++ s') = w.
Proof.
  rewrite length_app.
  replace (length w + length s' - length s')%nat with (length w) by lia.
  apply take_app_length.
Qed.

(** A match of [date_regex] fills the three groups, the second and the
    third with one or two digits. *)
Lemma date_regex_groups (s : str) (g : groups) :
  re_search (date_regex nd) s = Some g ->
  exists y m d,
    groups3 g = Ok (y, m, d)
    /\ (m <> [] /\ forallb (is_digit nd) m = true)
    /\ (d <> [] /\ forallb (is_digit nd) d = true).
Proof.
  intros H. apply re_search_sound in H as (s0 & s' & H & _).
  unfold date_regex in H.
  apply matches_Seq_inv in H as (s1 & g1 & Hy & H).
  apply matches_Seq_inv in H as (s2 & g2 & Hs1 & H).
  apply matches_Seq_inv in H as (s3 & g3 & Hm & H).
  apply matches_Seq_inv in H as (s4 & g4 & Hs2 & Hd).
  apply matches_Grp_inv in Hy as (gy & _ & ->).
  apply matches_Cls_inv in Hs1 as (c1 & -> & -> & _).
  apply matches_Grp_inv in Hm as (gm & Hm & ->).
  apply matches_Cls_inv in Hs2 as (c2 & -> & -> & _).
  apply matches_Grp_inv in Hd as (gd & Hd & ->).
  apply d12_inv in Hm as [-> (wm & -> & Hm)].
  apply d12_inv in Hd as [-> (wd & -> & Hd)].
  rewrite !take_consumed. eexists _, wm, wd. by split.
Qed.

Lemma ove_bind {A B} (m : result A) (f : A -> result B) :
  only_value_error m -> (forall a, only_value_error (f a)) ->
  only_value_error (bind m f).
Proof.
  intros Hm Hf e. destruct m as [a|e']; simpl.
  - apply Hf.
  - intros [= ->]. by apply Hm.
Qed.

Lemma ove_ok {A} (a : A) : only_value_error (Ok a).
Proof. intros e; discriminate. Qed.

Lemma ove_value_error {A} (m : string) :
  only_value_error (@Raise A (value_error m)).
Proof. by intros e [= <-]. Qed.

Lemma ove_format_regex (fmt : str) : only_value_error (format_regex nd fmt).
Proof.
  cut (only_value_error (format_regex nd fmt)
       /\ forall c, only_value_error (format_regex nd (c :: fmt))).
  { by intros [H _]. }
  induction fmt as [|x r [IH1 IH2]].
  - split; [apply ove_ok|]. intros c. simpl.
    destruct (c =? ch "%"); [apply ove_value_error|].
    destruct (is_space c); [apply ove_value_error | apply ove_ok].
  - split; [apply IH2|]. intros c.
    change (format_regex nd (c :: x :: r)) with
      (if c =? ch "%" then
         match directive_regex nd x with
         | Some rx => let* rest := format_regex nd r in Ok (Seq rx rest)
         | None => Raise (value_error "bad directive in format")
         end
       else if is_space c then Raise (value_error "format not covered")
       else let* rest := format_regex nd (x :: r) in Ok (Seq (chr c) rest)).
    destruct (c =? ch "%").
    + destruct (directive_regex nd x); [|apply ove_value_error].
      apply ove_bind; [exact IH1 | intros; apply ove_ok].
    + destruct (is_space c); [apply ove_value_error|].
      apply ove_bind; [apply IH2 | intros; apply ove_ok].
Qed.

Lemma ove_py_int (s : str) : only_value_error (py_int nd s).
Proof.
  unfold py_int. destruct (strip s); [apply ove_value_error|].
  destruct (digits_value nd 0 _); [apply ove_ok | apply ove_value_error].
Qed.

Lemma ove_int_group (n : N) (g : groups) (default : N) :
  only_value_error (int_group nd n g default).
Proof.
  unfold int_group. destruct (group n g); [apply ove_py_int | apply ove_ok].
Qed.

(** [strptime] raises nothing but [ValueError]. *)
Lemma ove_strptime (data fmt : str) : only_value_error (strptime nd data fmt).
Proof.
  unfold strptime. apply ove_bind; [apply ove_format_regex|]. intros rx.
  destruct (re_match rx data) as [[g [|c rest]]|]; try apply ove_value_error.
  repeat (apply ove_bind; [apply ove_int_group|]; intros ?).
  unfold make_date. destruct (_ && _); [apply ove_ok | apply ove_value_error].
Qed.

Lemma try_patterns_ok (value : str) (patterns : list str)
    (otherwise : result str) :
  (exists r, otherwise = Ok r) ->
  exists r, try_patterns nd value patterns otherwise = Ok r.
Proof.
  intros Ho. induction patterns as [|p ps IH]; simpl; [exact Ho|].
  destruct (strptime nd value p) as [d|e] eqn:Hs; simpl.
  - eauto.
  - by rewrite (ove_strptime _ _ e Hs).
Qed.

Lemma try_patterns_none (value : str) (patterns : list str)
    (otherwise : result str) :
  Forall (fun p => exists e, strptime nd value p = Raise e) patterns ->
  try_patterns nd value patterns otherwise = otherwise.
Proof.
  induction 1 as [|p ps [e Hs] _ IH]; simpl; [done|].
  rewrite Hs. simpl. by rewrite (ove_strptime _ _ e Hs).
Qed.

Lemma normalize_date_total (value : str) :
  exists r, normalize_date nd value = Ok r.
Proof.
  unfold normalize_date. apply try_patterns_ok.
  destruct (re_search _ _) as [g|] eqn:Hs; [|eauto].
  apply date_regex_groups in Hs as (y & m & d & -> & [Hm Hm'] & [Hd Hd']).
  simpl.
  destruct (py_int_digits m Hm Hm') as [vm ->].
  destruct (py_int_digits d Hd Hd') as [vd ->].
  simpl. eauto.
Qed.

Lemma normalize_date_passthrough (value : str) :
  Forall (fun p => exists e, strptime nd (clean_date value) p = Raise e)
         DATE_PATTERNS ->
  re_search (date_regex nd) (clean_date value) = None ->
  normalize_date nd value = Ok (clean_date value).
Proof.
  intros Hp Hr. unfold normalize_date.
  rewrite try_patterns_none by exact Hp. by rewrite Hr.
Qed.

(** A strict pattern and the regular expression both need eight characters
    at least. *)
Lemma strptime_short (value pattern : str) :
  (length value < 8)%nat -> pattern ∈ DATE_PATTERNS ->
  exists e, strptime nd value pattern = Raise e.
Proof.
  intros Hl Hp.
  destruct (strptime nd value pattern) as [d|e] eqn:Hs; [exfalso | by exists e].
  unfold strptime in Hs.
  assert (Hrx : exists rx, format_regex nd pattern = Ok rx
                           /\ (8 <= min_len rx)%nat).
  { unfold DATE_PATTERNS in Hp.
    apply elem_of_cons in Hp as [-> | Hp];
      [|apply elem_of_cons in Hp as [-> | Hp];
        [|apply list_elem_of_singleton in Hp as ->]];
      (eexists; split; [reflexivity | simpl; lia]). }
  destruct Hrx as (rx & Hrx & Hmin). rewrite Hrx in Hs. simpl in Hs.
  destruct (re_match rx value) as [[g rest]|] eqn:Hm; [|discriminate].
  apply rmatch_sound in Hm as (s' & g' & Hm & _).
  apply matches_length in Hm. lia.
Qed.

Lemma date_regex_short (value : str) :
  (length value < 8)%nat -> re_search (date_regex nd) value = None.
Proof.
  intros Hl. destruct (re_search _ _) as [g|] eqn:Hs; [exfalso | done].
  apply re_search_sound in Hs as (s0 & s' & Hm & Hl').
  apply matches_length in Hm. simpl in Hm. lia.
Qed.

Lemma normalize_date_short (value : str) :
  (length (clean_date value) < 8)%nat ->
  normalize_date nd value = Ok (clean_date value).
Proof.
  intros Hl. apply normalize_date_passthrough.
  - apply List.Forall_forall. intros p Hp.
    apply strptime_short; [exact Hl | by apply list_elem_of_In].
  - by apply date_regex_short.
Qed.

End DateNormalizerFacts.

(** C5. [normalize_date] maps "2024年5月10日" and "2024/5/10" to
    "2024-05-10" and leaves "不明" as it is; on every input it returns a
    string (it raises nothing), and when no strict pattern parses the
    cleaned input and the regular expression finds nothing in it, the result
    is the cleaned input itself. *)
Theorem normalize_date_spec (nd : N -> option N) :
  normalize_date nd (u "2024年5月10日") = Ok (u "2024-05-10") /\
  normalize_date nd (u "2024/5/10") = Ok (u "2024-05-10") /\
  normalize_date nd (u "不明") = Ok (u "不明") /\
  (forall value : str, exists r : str, normalize_date nd value = Ok r) /\
  (forall value : str,
      Forall (fun p => exists e, strptime nd (clean_date value) p = Raise e)
             DATE_PATTERNS ->
      re_search (date_regex nd) (clean_date value) = None ->
      normalize_date nd value = Ok (clean_date value)).
Proof.
  split; [by vm_compute|]. split; [by vm_compute|]. split.
  - apply (normalize_date_short nd (u "不明")). vm_compute. lia.
  - split; [apply normalize_date_total | apply normalize_date_passthrough].
Qed.

Lemma normalize_date_spec_witness :
  Forall (fun p => exists e,
              strptime (fun _ => None) (clean_date (u "不明")) p = Raise e)
         DATE_PATTERNS /\
  re_search (date_regex (fun _ => None)) (clean_date (u "不明")) = None /\
  normalize_date (fun _ => None) (u "不明") = Ok (clean_date (u "不明")).
Proof.
  assert (Hp : Forall (fun p => exists e,
              strptime (fun _ => None) (clean_date (u "不明")) p = Raise e)
         DATE_PATTERNS).
  { repeat constructor; eexists; vm_compute; reflexivity. }
  assert (Hr : re_search (date_regex (fun _ => None)) (clean_date (u "不明"))
               = None) by (vm_compute; reflexivity).
  split; [exact Hp|]. split; [exact Hr|].
  exact (proj2 (proj2 (proj2 (proj2 (normalize_date_spec (fun _ => None)))))
           (u "不明") Hp Hr).
Defined.

(** ** DateNormalizer: texts in the canonical shape *)

Section CanonicalDates.

Variable nd : N -> option N.

Lemma digit_value_ascii c : ascii_digit c = true -> digit_value nd c = Some (c - ch "0").
Proof. unfold digit_value, ascii_digit. by intros ->. Qed.

Lemma is_digit_ascii c : ascii_digit c = true -> is_digit nd c = true.
Proof. intros H. unfold is_digit. by rewrite digit_value_ascii. Qed.

Lemma ascii_digit_In c : ascii_digit c = true -> In c digit_chars.
Proof.
  unfold ascii_digit. rewrite andb_true_iff, !N.leb_le.
  unfold ch. simpl. intros [H0 H9].
  assert (c = 48 \/ c = 49 \/ c = 50 \/ c = 51 \/ c = 52 \/ c = 53 \/ c = 54
          \/ c = 55 \/ c = 56 \/ c = 57) as H by lia.
  vm_compute. intuition (subst; auto).
Qed.

Lemma digits_value_ascii s : forallb ascii_digit s = true -> forall acc, digits_value nd acc s = Some (ascii_value acc s).
Proof.
  induction s as [|c s IH]; simpl; intros H acc; [done|].
  apply andb_true_iff in H as [Hc Hs]. rewrite digit_value_ascii by done. by apply IH.
Qed.

Lemma ascii_digit_plain c : ascii_digit c = true -> is_space c = false.
Proof. intros H. apply (digit_not_space nd). by apply is_digit_ascii. Qed.

Lemma py_int_ascii s : s <> [] -> forallb ascii_digit s = true -> py_int nd s = Ok (ascii_value 0 s).
Proof.
  intros Hne Hd. unfold py_int. rewrite strip_id.
  - pose proof (digits_value_ascii s Hd 0) as Hv.
    destruct s; [done|]. by rewrite Hv.
  - rewrite forallb_forall in *. intros c Hc. apply negb_true_iff, ascii_digit_plain. by apply Hd.
Qed.

(** Four digits that do not begin with a zero are the decimal writing of
    the number they denote. *)
Lemma year_ok a b c d : forallb ascii_digit [a;b;c;d] = true ->
  a <> ch "0" ->
  decimal (ascii_value 0 [a;b;c;d]) = [a;b;c;d].
Proof.
  simpl. rewrite !andb_true_iff. intros (Ha & Hb & Hc & Hd & _) Ha0.
  apply ascii_digit_In in Ha, Hb, Hc, Hd.
  assert (Hall : forallb (fun a => forallb (fun b => forallb (fun c => forallb (fun d =>
     bool_decide (a = ch "0")
     || bool_decide (decimal (ascii_value 0 [a;b;c;d]) = [a;b;c;d]))
       digit_chars) digit_chars) digit_chars) digit_chars = true)
    by (vm_compute; reflexivity).
  rewrite forallb_forall in Hall. specialize (Hall a Ha).
  rewrite forallb_forall in Hall. specialize (Hall b Hb).
  rewrite forallb_forall in Hall. specialize (Hall c Hc).
  rewrite forallb_forall in Hall. specialize (Hall d Hd).
  apply orb_true_iff in Hall as [Hall | Hall].
  - by apply bool_decide_eq_true in Hall.
  - by apply bool_decide_eq_true in Hall.
Qed.

Lemma format1_ok a : ascii_digit a = true ->
  format_0d 2 (ascii_value 0 [a]) = [ch "0"; a].
Proof.
  intros Ha. apply ascii_digit_In in Ha.
  assert (Hall : forallb (fun a =>
     bool_decide (format_0d 2 (ascii_value 0 [a]) = [ch "0"; a])) digit_chars
     = true) by (vm_compute; reflexivity).
  rewrite forallb_forall in Hall. specialize (Hall a Ha).
  by apply bool_decide_eq_true in Hall.
Qed.

Lemma format2_ok a b : forallb ascii_digit [a;b] = true ->
  format_0d 2 (ascii_value 0 [a;b]) = [a;b].
Proof.
  simpl. rewrite !andb_true_iff. intros (Ha & Hb & _).
  apply ascii_digit_In in Ha, Hb.
  assert (Hall : forallb (fun a => forallb (fun b =>
     bool_decide (format_0d 2 (ascii_value 0 [a;b]) = [a;b])) digit_chars) digit_chars = true)
    by (vm_compute; reflexivity).
  rewrite forallb_forall in Hall. specialize (Hall a Ha).
  rewrite forallb_forall in Hall. specialize (Hall b Hb).
  by apply bool_decide_eq_true in Hall.
Qed.


Lemma collapse_ws_plain (s : str) :
  forallb (fun c => negb (is_space c)) s = true -> collapse_ws s = s.
Proof.
  unfold collapse_ws. induction s as [|c s IH]; simpl; [done|].
  intros H. apply andb_true_iff in H as [Hc Hs].
  apply negb_true_iff in Hc. rewrite Hc. by rewrite IH.
Qed.

Lemma replace_absent (o : N) (old new s : str) :
  forallb (fun c => negb (c =? o)) s = true -> replace (o :: old) new s = s.
Proof.
  unfold replace. induction s as [|c s IH]; simpl; [done|].
  intros H. apply andb_true_iff in H as [Hc Hs].
  apply negb_true_iff in Hc. rewrite Hc. simpl. by rewrite IH.
Qed.

(** A text of ASCII characters without white space is clean. *)
Lemma clean_date_plain (s : str) :
  forallb (fun c => (c <? 0x80) && negb (is_space c)) s = true ->
  clean_date s = s.
Proof.
  intros H. unfold clean_date.
  assert (Hs : forallb (fun c => negb (is_space c)) s = true).
  { rewrite forallb_forall in *. intros c Hc.
    by destruct (proj1 (andb_true_iff _ _) (H c Hc)). }
  assert (Hg : forall o, 0x80 <= o -> forallb (fun c => negb (c =? o)) s = true).
  { intros o Ho. rewrite forallb_forall in *. intros c Hc.
    destruct (proj1 (andb_true_iff _ _) (H c Hc)) as [Hlt _].
    apply N.ltb_lt in Hlt. apply negb_true_iff, N.eqb_neq. lia. }
  rewrite strip_id, collapse_ws_plain by done.
  change (u "年") with [0x5E74]. change (u "月") with [0x6708].
  change (u "日") with [0x65E5].
  rewrite (replace_absent 0x5E74 [] _ s) by (apply Hg; lia).
  rewrite (replace_absent 0x6708 [] _ s) by (apply Hg; lia).
  by rewrite (replace_absent 0x65E5 [] _ s) by (apply Hg; lia).
Qed.

Lemma re_search_here (r : regex) (s : str) (g : groups) :
  rmatch r s [] (fun _ g => Some g) = Some g -> re_search r s = Some g.
Proof. intros H. destruct s; simpl; by rewrite H. Qed.

Ltac minv :=
  repeat (match goal with
    | H : matches (Seq _ _) _ _ _ _ |- _ =>
      apply matches_Seq_inv in H as (? & ? & ? & H)
    | H : matches (Grp _ _) _ _ _ _ |- _ =>
      apply matches_Grp_inv in H as (? & H & ?)
    | H : matches (Alt _ _) _ _ _ _ |- _ =>
      apply matches_Alt_inv in H as [H | H]
    | H : matches (Cls _) _ _ _ _ |- _ =>
      apply matches_Cls_inv in H as (? & ? & ? & ?)
    | H : matches Eps _ _ _ _ |- _ =>
      apply matches_Eps_inv in H as [? ?]
    end; simplify_eq).

Ltac digits :=
  cbn [forallb];
  repeat match goal with
         | H : ascii_digit ?x = true |- context [ascii_digit ?x] => rewrite H
         end;
  reflexivity.

Ltac no_digit :=
  exfalso;
  match goal with
  | H : (ch _ =? ?v) = true, D : ascii_digit ?v = true |- _ =>
    apply N.eqb_eq in H; subst; discriminate D
  end.

Ltac read_groups :=
  repeat match goal with
  | |- context [int_group nd ?n ?gs ?dflt] =>
    let v := eval cbv in (group n gs) in
    match v with
    | Some ?s => change (int_group nd n gs dflt) with (py_int nd s)
    end
  end.

Section Fixed.
Variables a b c d e f g h : N.
Hypothesis Hd : forallb ascii_digit [a; b; c; d; e; f; g; h] = true.
Hypothesis Ha0 : a <> ch "0".

Lemma digits8 :
  ascii_digit a = true /\ ascii_digit b = true /\ ascii_digit c = true /\
  ascii_digit d = true /\ ascii_digit e = true /\ ascii_digit f = true /\
  ascii_digit g = true /\ ascii_digit h = true.
Proof. simpl in Hd. rewrite !andb_true_iff in Hd. tauto. Qed.

Lemma canonical_regex :
  re_search (date_regex nd) (canonical a b c d e f g h)
  = Some [(3, [g; h]); (2, [e; f]); (1, [a; b; c; d])].
Proof.
  destruct digits8 as (Ha & Hb & Hc & Hd' & He & Hf & Hg & Hh).
  apply re_search_here. unfold canonical, date_regex, d_, opt, one_of.
  cbn [rmatch].
  rewrite !(is_digit_ascii a), !(is_digit_ascii b), !(is_digit_ascii c),
    !(is_digit_ascii d), !(is_digit_ascii e), !(is_digit_ascii f),
    !(is_digit_ascii g), !(is_digit_ascii h) by done.
  reflexivity.
Qed.

Lemma canonical_clean : clean_date (canonical a b c d e f g h) = canonical a b c d e f g h.
Proof.
  destruct digits8 as (Ha & Hb & Hc & Hd' & He & Hf & Hg & Hh).
  apply clean_date_plain. unfold canonical.
  assert (P : forall x, ascii_digit x = true -> (x <? 0x80) && negb (is_space x) = true).
  { intros x Hx. rewrite (ascii_digit_plain x Hx), andb_true_r.
    unfold ascii_digit in Hx. apply andb_true_iff in Hx as [_ Hx].
    apply N.leb_le in Hx. unfold ch in Hx. simpl in Hx. apply N.ltb_lt. lia. }
  simpl. rewrite !P by done. reflexivity.
Qed.


Lemma format_regex_patterns :
  format_regex nd (u "%Y-%m-%d") = Ok (regex_ymd nd (ch "-")) /\
  format_regex nd (u "%Y/%m/%d") = Ok (regex_ymd nd (ch "/")) /\
  format_regex nd (u "%Y.%m.%d") = Ok (regex_ymd nd (ch ".")).
Proof. by repeat split. Qed.

Lemma strftime_ymd (y m dd : N) :
  strftime (mk_date y m dd) (u "%Y-%m-%d")
  = decimal y ++ ch "-" :: format_0d 2 m ++ ch "-" :: format_0d 2 dd.
Proof.
  transitivity (decimal y ++ ch "-" :: format_0d 2 m
                ++ ch "-" :: format_0d 2 dd ++ []);
    [reflexivity | by rewrite app_nil_r].
Qed.

Local Opaque ascii_value.

Lemma canonical_strict (date : date) :
  strptime nd (canonical a b c d e f g h) (u "%Y-%m-%d") = Ok date ->
  strftime date (u "%Y-%m-%d") = canonical a b c d e f g h.
Proof.
  destruct digits8 as (Ha & Hb & Hc & Hd' & He & Hf & Hg & Hh).
  unfold strptime. rewrite (proj1 format_regex_patterns). simpl bind.
  destruct (re_match _ _) as [[gs [|x rest]]|] eqn:Hm; [|done..].
  apply rmatch_sound in Hm as (s' & g' & Hm & Hk). simplify_eq.
  unfold regex_ymd, regex_Y, regex_m, regex_d, canonical, chr, range, d_ in Hm.
  minv; try no_digit.
  all: read_groups.
  all: rewrite !py_int_ascii by first [done | digits].
  all: cbn [bind]; unfold make_date.
  all: match goal with
       | |- (if ?cond then _ else _) = _ -> _ => destruct cond; [|done]
       end.
  all: intros [= <-].
  all: rewrite strftime_ymd, year_ok, !format2_ok by first [done | digits].
  all: reflexivity.
Qed.

Lemma canonical_other_separator (sep : N) (pattern : str) :
  format_regex nd pattern = Ok (regex_ymd nd sep) -> sep <> ch "-" ->
  exists error,
    strptime nd (canonical a b c d e f g h) pattern = Raise error.
Proof.
  intros Hrx Hsep.
  destruct (strptime nd _ pattern) as [date|error] eqn:Hs; [exfalso | eauto].
  unfold strptime in Hs. rewrite Hrx in Hs. simpl bind in Hs.
  destruct (re_match _ _) as [[gs rest]|] eqn:Hm; [|done].
  apply rmatch_sound in Hm as (s' & g' & Hm & _).
  unfold regex_ymd, regex_Y, canonical, chr, d_ in Hm.
  apply matches_Seq_inv in Hm as (s1 & g1 & Hy & Hm).
  apply matches_Seq_inv in Hm as (s2 & g2 & Hsp & _).
  apply matches_Grp_inv in Hy as (g0 & Hy & _).
  minv. apply Hsep. by apply N.eqb_eq.
Qed.

(** A text in the canonical shape, four digits, two digits and two digits
    joined by hyphens, comes back unchanged, whether it is a date of the
    calendar or not. *)
Lemma normalize_date_canonical :
  normalize_date nd (canonical a b c d e f g h)
  = Ok (canonical a b c d e f g h).
Proof.
  unfold normalize_date. rewrite canonical_clean, canonical_regex.
  destruct digits8 as (Ha & Hb & Hc & Hd' & He & Hf & Hg & Hh).
  assert (Ho : (let* ymd := groups3 [(3, [g; h]); (2, [e; f]); (1, [a; b; c; d])] in
                let '(year, month, day) := ymd in
                let* m := py_int nd month in
                let* d0 := py_int nd day in
                Ok (year ++ u "-" ++ format_0d 2 m ++ u "-" ++ format_0d 2 d0))
                = Ok (canonical a b c d e f g h)).
  { change (groups3 _) with (Ok ([a; b; c; d], [e; f], [g; h])). simpl bind.
    rewrite !py_int_ascii by first [done | digits]. simpl bind.
    rewrite !format2_ok by digits. reflexivity. }
  rewrite Ho. unfold DATE_PATTERNS. simpl try_patterns.
  destruct (canonical_other_separator (ch "/") (u "%Y/%m/%d")) as [e2 H2];
    [apply format_regex_patterns | done |].
  destruct (canonical_other_separator (ch ".") (u "%Y.%m.%d")) as [e3 H3];
    [apply format_regex_patterns | done |].
  destruct (strptime nd _ (u "%Y-%m-%d")) as [date|e1] eqn:H1; simpl.
  - f_equal. by apply canonical_strict.
  - rewrite (ove_strptime _ _ _ e1 H1), H2. simpl.
    rewrite (ove_strptime _ _ _ e2 H2), H3. simpl.
    by rewrite (ove_strptime _ _ _ e3 H3).
Qed.

End Fixed.

Local Transparent ascii_value.

(** *** A year, a month and a day of one or two digits, and two separators *)

Lemma separator_facts (s : N) :
  In s date_separators ->
  existsb (N.eqb s) (u "-/.") = true /\ ascii_digit s = false
  /\ is_digit nd s = false /\ (s <? 0x80) && negb (is_space s) = true.
Proof.
  intros H. vm_compute in H.
  destruct H as [<- | [<- | [<- | []]]]; repeat split; reflexivity.
Qed.

Lemma short_number_inv (s : str) :
  short_number s ->
  (exists e, s = [e] /\ ascii_digit e = true)
  \/ (exists e f, s = [e; f] /\ ascii_digit e = true /\ ascii_digit f = true).
Proof.
  intros [Hl Hd]. destruct s as [|e [|f [|x s]]]; simpl in Hl; try lia.
  - left. exists e. simpl in Hd. rewrite andb_true_r in Hd. by split.
  - right. exists e, f. simpl in Hd. rewrite andb_true_r in Hd.
    apply andb_true_iff in Hd as [He Hf]. by repeat split.
Qed.

Lemma range_digit (lo hi x : N) :
  ascii_digit lo = true -> ascii_digit hi = true ->
  (lo <=? x) && (x <=? hi) = true -> ascii_digit x = true.
Proof.
  unfold ascii_digit. rewrite !andb_true_iff, !N.leb_le. lia.
Qed.

Lemma ascii_digit_text (x : N) :
  ascii_digit x = true -> (x <? 0x80) && negb (is_space x) = true.
Proof.
  intros Hx. rewrite (ascii_digit_plain x Hx), andb_true_r.
  unfold ascii_digit in Hx. apply andb_true_iff in Hx as [_ Hx].
  apply N.leb_le in Hx. unfold ch in Hx. simpl in Hx. apply N.ltb_lt. lia.
Qed.

Lemma zero_padded_ok (digits : str) :
  short_number digits ->
  py_int nd digits = Ok (ascii_value 0 digits)
  /\ format_0d 2 (ascii_value 0 digits) = zero_padded digits.
Proof.
  intros H.
  destruct (short_number_inv digits H) as [(e & -> & He) | (e & f & -> & He & Hf)].
  - split; [apply py_int_ascii; [done | digits] | by apply format1_ok].
  - split; [apply py_int_ascii; [done | digits] | apply format2_ok; digits].
Qed.

Ltac not_a_digit :=
  exfalso;
  match goal with
  | H : (?s =? ?v) = true, D : ascii_digit ?v = true,
    S : ascii_digit ?s = false |- _ =>
    apply N.eqb_eq in H; subst; congruence
  | H : (ch _ =? ?v) = true, D : ascii_digit ?v = false |- _ =>
    apply N.eqb_eq in H; subst; discriminate D
  | H : ((?lo <=? ?x) && (?x <=? ?hi)) = true, D : ascii_digit ?x = false |- _ =>
    apply range_digit in H; [congruence | reflexivity | reflexivity]
  | H : is_digit nd ?x = true, D : is_digit nd ?x = false |- _ => congruence
  end.

Local Opaque ascii_value.

(** A strict pattern that parses such a text reads the three numbers as
    they stand, and its separator is the one the text has twice. *)
Lemma loose_strict (a b c d s1 s2 sep : N) (month day pattern : str)
    (date : date) :
  forallb ascii_digit [a; b; c; d] = true -> a <> ch "0" ->
  short_number month -> short_number day ->
  In s1 date_separators -> In s2 date_separators ->
  format_regex nd pattern = Ok (regex_ymd nd sep) -> ascii_digit sep = false ->
  strptime nd (loose a b c d s1 month s2 day) pattern = Ok date ->
  strftime date (u "%Y-%m-%d")
  = loose a b c d (ch "-") (zero_padded month) (ch "-") (zero_padded day)
  /\ s1 = sep /\ s2 = sep.
Proof.
  intros Hy Ha0 Hm Hdy Hs1 Hs2 Hrx Hsep.
  destruct (separator_facts s1 Hs1) as (_ & Hd1 & Hn1 & _).
  destruct (separator_facts s2 Hs2) as (_ & Hd2 & Hn2 & _).
  assert (Hy' := Hy). simpl in Hy'. rewrite !andb_true_iff in Hy'.
  destruct Hy' as (Ha & Hb & Hc & Hd & _).
  unfold strptime. rewrite Hrx. simpl bind.
  destruct (re_match _ _) as [[gs [|x rest]]|] eqn:Hmt; [|done..].
  apply rmatch_sound in Hmt as (s' & g' & Hmt & Hk). simplify_eq.
  unfold regex_ymd, regex_Y, regex_m, regex_d, loose, chr, range, d_ in Hmt.
  destruct (short_number_inv month Hm) as [(e & -> & He) | (e & f & -> & He & Hf)];
    destruct (short_number_inv day Hdy) as [(g & -> & Hg) | (g & h & -> & Hg & Hh)];
    cbn [app] in Hmt; minv; cbv beta in *;
    try no_digit; try not_a_digit.
  all: read_groups.
  all: rewrite !py_int_ascii by first [done | digits].
  all: cbn [bind]; unfold make_date.
  all: match goal with
       | |- (if ?cond then _ else _) = _ -> _ => destruct cond; [|done]
       end.
  all: intros [= <-].
  all: rewrite strftime_ymd, year_ok, ?format2_ok, ?format1_ok
         by first [done | digits].
  all: repeat match goal with
              | H : (_ =? _) = true |- _ => apply N.eqb_eq in H
              end.
  all: by repeat split.
Qed.

Local Transparent ascii_value.

Lemma loose_clean (a b c d s1 s2 : N) (month day : str) :
  forallb ascii_digit [a; b; c; d] = true ->
  short_number month -> short_number day ->
  In s1 date_separators -> In s2 date_separators ->
  clean_date (loose a b c d s1 month s2 day) = loose a b c d s1 month s2 day.
Proof.
  intros Hy [_ Hm] [_ Hdy] Hs1 Hs2.
  destruct (separator_facts s1 Hs1) as (_ & _ & _ & Ht1).
  destruct (separator_facts s2 Hs2) as (_ & _ & _ & Ht2).
  assert (Hall : forall t, forallb ascii_digit t = true ->
            forallb (fun c => (c <? 0x80) && negb (is_space c)) t = true).
  { intros t Ht. rewrite forallb_forall in *. intros x Hx.
    by apply ascii_digit_text, Ht. }
  apply clean_date_plain. unfold loose.
  rewrite forallb_app, (Hall _ Hy). cbn [forallb andb].
  rewrite forallb_app, (Hall _ Hm), Ht1. cbn [forallb andb].
  by rewrite (Hall _ Hdy), Ht2.
Qed.

Lemma loose_regex (a b c d s1 s2 : N) (month day : str) :
  forallb ascii_digit [a; b; c; d] = true ->
  short_number month -> short_number day ->
  In s1 date_separators -> In s2 date_separators ->
  re_search (date_regex nd) (loose a b c d s1 month s2 day)
  = Some [(3, day); (2, month); (1, [a; b; c; d])].
Proof.
  intros Hy Hm Hdy Hs1 Hs2.
  destruct (separator_facts s1 Hs1) as (Hx1 & _ & Hn1 & _).
  destruct (separator_facts s2 Hs2) as (Hx2 & _ & Hn2 & _).
  simpl in Hy. rewrite !andb_true_iff in Hy.
  destruct Hy as (Ha & Hb & Hc & Hd & _).
  apply re_search_here. unfold loose, date_regex, d_, opt, one_of.
  destruct (short_number_inv month Hm) as [(e & -> & He) | (e & f & -> & He & Hf)];
    destruct (short_number_inv day Hdy) as [(g & -> & Hg) | (g & h & -> & Hg & Hh)];
    cbn [app rmatch];
    rewrite ?(is_digit_ascii a), ?(is_digit_ascii b), ?(is_digit_ascii c),
      ?(is_digit_ascii d), ?(is_digit_ascii e), ?(is_digit_ascii f),
      ?(is_digit_ascii g), ?(is_digit_ascii h), ?Hx1, ?Hx2, ?Hn1, ?Hn2 by done;
    reflexivity.
Qed.

(** Whatever the strict patterns make of it, such a text comes back with
    hyphens and with month and day written in two digits. *)
Lemma normalize_date_loose (a b c d s1 s2 : N) (month day : str) :
  forallb ascii_digit [a; b; c; d] = true -> a <> ch "0" ->
  short_number month -> short_number day ->
  In s1 date_separators -> In s2 date_separators ->
  normalize_date nd (loose a b c d s1 month s2 day)
  = Ok (loose a b c d (ch "-") (zero_padded month) (ch "-") (zero_padded day)).
Proof.
  intros Hy Ha0 Hm Hdy Hs1 Hs2. unfold normalize_date.
  rewrite loose_clean, loose_regex by done.
  destruct (zero_padded_ok month Hm) as [Hpm Hfm].
  destruct (zero_padded_ok day Hdy) as [Hpd Hfd].
  assert (Ho : (let* ymd := groups3 [(3, day); (2, month); (1, [a; b; c; d])] in
                let '(year, month, day) := ymd in
                let* m := py_int nd month in
                let* d0 := py_int nd day in
                Ok (year ++ u "-" ++ format_0d 2 m ++ u "-" ++ format_0d 2 d0))
               = Ok (loose a b c d (ch "-") (zero_padded month) (ch "-")
                       (zero_padded day))).
  { change (groups3 _) with (Ok ([a; b; c; d], month, day)). cbn [bind].
    rewrite Hpm, Hpd. cbn [bind]. by rewrite Hfm, Hfd. }
  rewrite Ho. clear Ho.
  assert (Hstrict : forall sep pattern date,
            format_regex nd pattern = Ok (regex_ymd nd sep) ->
            ascii_digit sep = false ->
            strptime nd (loose a b c d s1 month s2 day) pattern = Ok date ->
            strftime date (u "%Y-%m-%d")
            = loose a b c d (ch "-") (zero_padded month) (ch "-")
                (zero_padded day)).
  { intros sep pattern date Hrx Hsep Hs.
    by destruct (loose_strict a b c d s1 s2 sep month day pattern date). }
  unfold DATE_PATTERNS. cbn [try_patterns].
  destruct (strptime nd _ (u "%Y-%m-%d")) as [date|e1] eqn:H1; cbn [bind try_except].
  { f_equal. by apply (Hstrict (ch "-") (u "%Y-%m-%d")). }
  rewrite (ove_strptime _ _ _ e1 H1). cbn [issubclass exn_class_eqb orb].
  destruct (strptime nd _ (u "%Y/%m/%d")) as [date|e2] eqn:H2; cbn [bind try_except].
  { f_equal. by apply (Hstrict (ch "/") (u "%Y/%m/%d")). }
  rewrite (ove_strptime _ _ _ e2 H2). cbn [issubclass exn_class_eqb orb].
  destruct (strptime nd _ (u "%Y.%m.%d")) as [date|e3] eqn:H3; cbn [bind try_except].
  { f_equal. by apply (Hstrict (ch ".") (u "%Y.%m.%d")). }
  by rewrite (ove_strptime _ _ _ e3 H3).
Qed.

(** With two different separators no strict pattern parses the text. *)
Lemma loose_mixed (a b c d s1 s2 : N) (month day : str) :
  forallb ascii_digit [a; b; c; d] = true -> a <> ch "0" ->
  short_number month -> short_number day ->
  In s1 date_separators -> In s2 date_separators ->
  s1 <> s2 ->
  Forall (fun p => exists e,
              strptime nd (loose a b c d s1 month s2 day) p = Raise e)
         DATE_PATTERNS.
Proof.
  intros Hy Ha0 Hm Hdy Hs1 Hs2 Hne.
  assert (Hstrict : forall sep pattern,
            format_regex nd pattern = Ok (regex_ymd nd sep) ->
            ascii_digit sep = false ->
            exists e, strptime nd (loose a b c d s1 month s2 day) pattern
                      = Raise e).
  { intros sep pattern Hrx Hsep.
    destruct (strptime nd _ pattern) as [date|e] eqn:Hs; [exfalso | eauto].
    destruct (loose_strict a b c d s1 s2 sep month day pattern date)
      as (_ & -> & ->); done. }
  unfold DATE_PATTERNS.
  repeat apply List.Forall_cons; try apply List.Forall_nil.
  - by apply (Hstrict (ch "-")).
  - by apply (Hstrict (ch "/")).
  - by apply (Hstrict (ch ".")).
Qed.

End CanonicalDates.

(** C10. The regular-expression fallback pads month and day with zeros and
    checks no calendar range.  A text made of a year of four digits that
    does not begin with a zero, a month and a day of one or two digits
    each, and any two of the separators before them, comes back as the
    year, the month and the day joined by hyphens, month and day written in
    two digits, whatever numbers they are: the expression finds the three
    numbers in every such text, and when the two separators differ no
    strict pattern parses it, so the result is the fallback's.
    Every strict pattern rejects "2024.13.45", the expression takes 2024,
    13 and 45 from it, and the result "2024-13-45" has the canonical shape
    although no such date exists. *)
Theorem normalize_date_no_range_check (nd : N -> option N) :
  (forall (a b c d s1 s2 : N) (month day : str),
      forallb ascii_digit [a; b; c; d] = true -> a <> ch "0" ->
      short_number month -> short_number day ->
      In s1 date_separators -> In s2 date_separators ->
      normalize_date nd (loose a b c d s1 month s2 day)
      = Ok (loose a b c d (ch "-") (zero_padded month) (ch "-")
              (zero_padded day))
      /\ (exists g,
            re_search (date_regex nd) (loose a b c d s1 month s2 day) = Some g
            /\ groups3 g = Ok ([a; b; c; d], month, day))
      /\ (s1 <> s2 ->
          Forall (fun p => exists e,
                      strptime nd (loose a b c d s1 month s2 day) p = Raise e)
                 DATE_PATTERNS)) /\
  normalize_date nd (u "2024.13.45") = Ok (u "2024-13-45") /\
  Forall (fun p => exists e, strptime nd (u "2024.13.45") p = Raise e)
         DATE_PATTERNS /\
  (exists g, re_search (date_regex nd) (u "2024.13.45") = Some g
             /\ groups3 g = Ok (u "2024", u "13", u "45")) /\
  (exists e, make_date 2024 13 45 = Raise e).
Proof.
  split.
  { intros a b c d s1 s2 month day Hy Ha0 Hm Hd Hs1 Hs2.
    split; [by apply normalize_date_loose|]. split.
    - eexists. split; [by apply loose_regex | reflexivity].
    - intros Hne. by apply loose_mixed. }
  split; [by vm_compute|]. split.
  - repeat constructor; eexists; vm_compute; reflexivity.
  - split; [eexists; split; vm_compute; reflexivity|].
    eexists; vm_compute; reflexivity.
Qed.

Lemma normalize_date_no_range_check_witness :
  short_number (u "5") /\ short_number (u "77") /\
  normalize_date Sample.ascii_digits (u "2024-5/77") = Ok (u "2024-05-77") /\
  Forall (fun p => exists e,
              strptime Sample.ascii_digits (u "2024-5/77") p = Raise e)
         DATE_PATTERNS.
Proof.
  assert (Hm : short_number (u "5")) by (split; [simpl; lia | reflexivity]).
  assert (Hd : short_number (u "77")) by (split; [simpl; lia | reflexivity]).
  assert (Hy : forallb ascii_digit [ch "2"; ch "0"; ch "2"; ch "4"] = true)
    by reflexivity.
  assert (Ha : ch "2" <> ch "0") by (vm_compute; discriminate).
  assert (Hs1 : In (ch "-") date_separators) by (vm_compute; tauto).
  assert (Hs2 : In (ch "/") date_separators) by (vm_compute; tauto).
  assert (Hne : ch "-" <> ch "/") by (vm_compute; discriminate).
  destruct (normalize_date_no_range_check Sample.ascii_digits) as [H _].
  destruct (H (ch "2") (ch "0") (ch "2") (ch "4") (ch "-") (ch "/")
              (u "5") (u "77") Hy Ha Hm Hd Hs1 Hs2) as (Hn & _ & Hs).
  split; [exact Hm|]. split; [exact Hd|]. split; [exact Hn|].
  exact (Hs Hne).
Defined.

(** ** Deduplicator *)

Lemma keys_of_snoc (before : list Event) (e : Event) :
  keys_of (before ++ [e]) = {[event_key e]} ∪ keys_of before.
Proof.
  unfold keys_of. rewrite fmap_app, list_to_set_app_L. simpl.
  by rewrite union_empty_r_L, (comm_L (∪)).
Qed.

Lemma elem_of_keys_of (before : list Event) k :
  k ∈ keys_of before <-> k ∈ event_key <$> before.
Proof. unfold keys_of. by rewrite elem_of_list_to_set. Qed.

Lemma first_occurrence_here (before rest : list Event) (e : Event) :
  first_occurrence (before ++ e :: rest) (length before)
  = bool_decide (event_key e ∉ event_key <$> before).
Proof.
  unfold first_occurrence.
  rewrite list_lookup_middle by done. by rewrite take_app_length.
Qed.

(** The loop, started after [before], appends the first occurrences among
    the remaining positions. *)
Lemma dedupe_loop_positions (rest before output : list Event) :
  dedupe_loop rest (keys_of before) output
  = output ++
    omap (fun i => (before ++ rest) !! i)
         (List.filter (first_occurrence (before ++ rest))
                      (seq (length before) (length rest))).
Proof.
  revert before output.
  induction rest as [|e rest IH]; intros before output; simpl.
  - by rewrite app_nil_r.
  - rewrite first_occurrence_here.
    assert (Hnext : forall out,
               dedupe_loop rest (keys_of (before ++ [e])) out
               = out ++ omap (fun i => (before ++ e :: rest) !! i)
                   (List.filter (first_occurrence (before ++ e :: rest))
                      (seq (S (length before)) (length rest)))).
    { intros out. rewrite IH, <- app_assoc. simpl.
      rewrite length_app. simpl.
      by replace (length before + 1)%nat with (S (length before)) by lia. }
    destruct (decide (event_key e ∈ keys_of before)) as [Hin | Hnin].
    + rewrite bool_decide_eq_false_2
        by (intros Hn; apply Hn; by apply elem_of_keys_of).
      rewrite <- Hnext. f_equal. rewrite keys_of_snoc.
      symmetry. apply subseteq_union_1_L. by apply singleton_subseteq_l.
    + rewrite bool_decide_eq_true_2
        by (intros Hn; apply Hnin; by apply elem_of_keys_of).
      simpl. rewrite list_lookup_middle by done. simpl.
      rewrite <- keys_of_snoc, Hnext. by rewrite <- app_assoc.
Qed.

Lemma dedupe_loop_NoDup (rest : list Event) :
  forall seen output,
    NoDup (event_key <$> output) ->
    (forall k, k ∈ event_key <$> output -> k ∈ seen) ->
    NoDup (event_key <$> dedupe_loop rest seen output).
Proof.
  induction rest as [|e rest IH]; intros seen output Hnd Hsub; simpl; [done|].
  destruct (decide (event_key e ∈ seen)) as [Hin | Hnin].
  - by apply IH.
  - apply IH.
    + rewrite fmap_app. simpl. apply NoDup_app. split; [done|]. split.
      * intros k Hk Hk'. apply list_elem_of_singleton in Hk' as ->.
        by apply Hnin, Hsub.
      * apply NoDup_singleton.
    + intros k. rewrite fmap_app. simpl. intros Hk.
      apply elem_of_app in Hk as [Hk | Hk].
      * by apply elem_of_union_r, Hsub.
      * apply elem_of_union_l, elem_of_singleton.
        by apply list_elem_of_singleton in Hk.
Qed.

Lemma dedupe_loop_sublist (rest : list Event) :
  forall seen before output,
    output `sublist_of` before ->
    dedupe_loop rest seen output `sublist_of` before ++ rest.
Proof.
  induction rest as [|e rest IH]; intros seen before output Hs; simpl.
  - by rewrite app_nil_r.
  - replace (before ++ e :: rest) with ((before ++ [e]) ++ rest)
      by (by rewrite <- app_assoc).
    destruct (decide (event_key e ∈ seen)); apply IH.
    + by apply sublist_inserts_r.
    + by apply sublist_app.
Qed.

(** C1. The output of [dedupe_events] has no two elements with the same
    key [(name, race_date, location)]; it is a subsequence of the input; and
    it consists of exactly the elements at the positions of the first
    occurrence of each key, in the order of those positions. *)
Theorem dedupe_events_spec (events : list Event) :
  NoDup (event_key <$> dedupe_events events) /\
  dedupe_events events `sublist_of` events /\
  dedupe_events events
  = omap (fun i => events !! i) (first_positions events).
Proof.
  unfold dedupe_events. split; [|split].
  - apply dedupe_loop_NoDup; [constructor | intros k Hk; inversion Hk].
  - apply (dedupe_loop_sublist events ∅ [] []). constructor.
  - apply (dedupe_loop_positions events [] []).
Qed.

(** ** SiteExtractor *)

(** [s.rstrip("/")] removes the whole run of slashes at the end. *)
Lemma rstrip_char_spec (x : N) (s : str) :
  exists n : nat,
    s = rstrip_char x s ++ repeat x n
    /\ forall t, rstrip_char x s <> t ++ [x].
Proof.
  unfold rstrip_char.
  assert (H : forall r : str, exists n : nat,
               r = repeat x n ++ lstrip_char x r
               /\ forall t, lstrip_char x r <> x :: t).
  { induction r as [|c r (n & Hr & Hh)]; simpl.
    - exists 0%nat. split; [done | intros t; discriminate].
    - destruct (c =? x) eqn:E.
      + apply N.eqb_eq in E as ->. exists (S n). simpl.
        split; [by rewrite <- Hr | exact Hh].
      + exists 0%nat. split; [done|]. intros t [= -> _].
        by rewrite N.eqb_refl in E. }
  destruct (H (rev s)) as (n & Hs & Hh). exists n. split.
  - apply (f_equal (@rev N)) in Hs.
    rewrite rev_involutive, rev_app_distr in Hs.
    by rewrite Hs at 1; rewrite rev_repeat.
  - intros t Ht. apply (Hh (rev t)).
    apply (f_equal (@rev N)) in Ht.
    rewrite rev_involutive, rev_app_distr in Ht. exact Ht.
Qed.

Section ExtractorFacts.

Variable nd : N -> option N.
Variables url site : str.
Variable selectors : Selectors.

Lemma extract_item_skips (item : Item) :
  ~ required_present selectors item ->
  extract_item nd url site selectors item = Ok None.
Proof.
  unfold required_present, extract_item. intros H.
  destruct (select_one item (sel_name selectors)); [|done].
  destruct (select_one item (sel_race_date selectors)); [|done].
  destruct (select_one item (sel_location selectors)); [|done].
  destruct (select_one item (sel_link selectors)); [|done].
  exfalso. apply H. by repeat split.
Qed.

(** The event of an item that has the four sub-elements, field by field. *)
Lemma extract_item_builds (item : Item) (name_el date_el location_el link_el : Element) :
  select_one item (sel_name selectors) = Some name_el ->
  select_one item (sel_race_date selectors) = Some date_el ->
  select_one item (sel_location selectors) = Some location_el ->
  select_one item (sel_link selectors) = Some link_el ->
  exists event,
    extract_item nd url site selectors item = Ok (Some event)
    /\ name event = get_text name_el
    /\ normalize_date nd (get_text date_el) = Ok (race_date event)
    /\ location event = get_text location_el
    /\ match select_one item (sel_deadline selectors) with
       | Some deadline_el =>
         normalize_date nd (get_text deadline_el)
         = Ok (registration_deadline event)
       | None => registration_deadline event = u ""
       end
    /\ registration_open event
       = guess_open_status
           match select_one item (sel_status selectors) with
           | Some status_el => get_text status_el
           | None => u ""
           end
    /\ website event
       = (let href := get link_el (u "href") (u "") in
          if nonempty href && startswith href (u "/")
          then rstrip_char (ch "/") url ++ href else href)
    /\ source event = site.
Proof.
  intros Hn Hd Hl Hk. unfold extract_item. rewrite Hn, Hd, Hl, Hk.
  destruct (normalize_date_total nd (get_text date_el)) as [rd Hrd].
  rewrite Hrd. simpl.
  destruct (select_one item (sel_deadline selectors)) as [deadline_el|].
  - destruct (normalize_date_total nd (get_text deadline_el)) as [dl Hdl].
    rewrite Hdl. simpl. eexists. split; [reflexivity|]. simpl.
    by repeat split.
  - simpl. eexists. split; [reflexivity|]. simpl. by repeat split.
Qed.

Lemma extract_item_required (item : Item) (event : Event) :
  extract_item nd url site selectors item = Ok (Some event) ->
  required_present selectors item.
Proof.
  intros H. unfold required_present, extract_item in *.
  destruct (select_one item (sel_name selectors)); [|done].
  destruct (select_one item (sel_race_date selectors)); [|done].
  destruct (select_one item (sel_location selectors)); [|done].
  destruct (select_one item (sel_link selectors)); [|done].
  by repeat split.
Qed.

Lemma extract_item_ok (item : Item) :
  exists r, extract_item nd url site selectors item = Ok r.
Proof.
  destruct (select_one item (sel_name selectors)) as [name_el|] eqn:Hn;
    [|exists None; unfold extract_item; by rewrite Hn].
  destruct (select_one item (sel_race_date selectors)) as [date_el|] eqn:Hd;
    [|exists None; unfold extract_item; by rewrite Hn, Hd].
  destruct (select_one item (sel_location selectors)) as [loc_el|] eqn:Hl;
    [|exists None; unfold extract_item; by rewrite Hn, Hd, Hl].
  destruct (select_one item (sel_link selectors)) as [link_el|] eqn:Hk;
    [|exists None; unfold extract_item; by rewrite Hn, Hd, Hl, Hk].
  destruct (extract_item_builds item _ _ _ _ Hn Hd Hl Hk) as (event & H & _).
  by exists (Some event).
Qed.

(** The loop never raises: it appends the events of the items, in order. *)
Lemma extract_items_collects (items : list Item) (events : list Event) :
  extract_items nd url site selectors items events
  = Ok (events ++ omap (event_of nd url site selectors) items).
Proof.
  revert events. induction items as [|item items IH]; intros events; simpl.
  - by rewrite app_nil_r.
  - unfold event_of at 1.
    destruct (extract_item_ok item) as [[event|] ->]; simpl.
    + by rewrite IH, <- app_assoc.
    + by rewrite IH.
Qed.

Lemma extract_generic_collects (net : Net) (response : Response) :
  net url = Ok response -> raise_for_status response = Ok tt ->
  extract_generic nd net url site selectors
  = Ok (omap (event_of nd url site selectors) (select (document response) (sel_item selectors))).
Proof.
  intros Hn Hs. unfold extract_generic. rewrite Hn. simpl. rewrite Hs. simpl.
  apply extract_items_collects.
Qed.

End ExtractorFacts.

(** C6. An item yields an event exactly when the name, race_date, location
    and link selectors each find an element; an item that lacks one of them
    is skipped without an error, and the other items of the page are kept;
    a missing status makes [registration_open] false and a missing deadline
    makes [registration_deadline] empty. *)
Theorem extract_item_spec (nd : N -> option N) (url site : str)
    (selectors : Selectors) :
  (forall item,
      (exists event, extract_item nd url site selectors item = Ok (Some event))
      <-> required_present selectors item) /\
  (forall item,
      ~ required_present selectors item ->
      extract_item nd url site selectors item = Ok None) /\
  (forall before item after,
      ~ required_present selectors item ->
      extract_items nd url site selectors (before ++ item :: after) []
      = extract_items nd url site selectors (before ++ after) []) /\
  (forall items,
      extract_items nd url site selectors items []
      = Ok (omap (event_of nd url site selectors) items)) /\
  (forall item event,
      extract_item nd url site selectors item = Ok (Some event) ->
      (select_one item (sel_status selectors) = None ->
       registration_open event = false) /\
      (select_one item (sel_deadline selectors) = None ->
       registration_deadline event = u "")).
Proof.
  split; [|split; [|split; [|split]]].
  - intros item. split.
    + intros [event H]. by eapply extract_item_required.
    + intros ([n Hn] & [d Hd] & [l Hl] & [k Hk]).
      destruct (extract_item_builds nd url site selectors item _ _ _ _
                  Hn Hd Hl Hk) as (event & H & _).
      by exists event.
  - apply extract_item_skips.
  - intros before item after Hr.
    rewrite !extract_items_collects, !omap_app. simpl.
    unfold event_of at 2. by rewrite (extract_item_skips _ _ _ _ _ Hr).
  - intros items. apply extract_items_collects.
  - intros item event H.
    destruct (extract_item_required _ _ _ _ _ _ H)
      as ([n Hn] & [d Hd] & [l Hl] & [k Hk]).
    destruct (extract_item_builds nd url site selectors item _ _ _ _
                Hn Hd Hl Hk) as (event' & H' & _ & _ & _ & Hdl & Hop & _).
    rewrite H in H'. injection H' as <-. split.
    + intros Hs. by rewrite Hs in Hop.
    + intros Hs. by rewrite Hs in Hdl.
Qed.

(** C8. The website of an extracted event: an href that is not empty and
    starts with "/" is appended to the configured URL with its trailing
    slashes removed; any other href, and the empty string that stands for
    an absent one, is stored as it is. *)
Theorem website_spec (nd : N -> option N) (url site : str)
    (selectors : Selectors) (item : Item) (event : Event) :
  extract_item nd url site selectors item = Ok (Some event) ->
  exists link_el,
    select_one item (sel_link selectors) = Some link_el /\
    let href := get link_el (u "href") (u "") in
    (assoc (u "href") (attrs link_el) = None -> href = u "") /\
    (href <> [] -> startswith href (u "/") = true ->
     website event = rstrip_char (ch "/") url ++ href) /\
    (startswith href (u "/") = false -> website event = href) /\
    (exists n : nat,
        url = rstrip_char (ch "/") url ++ repeat (ch "/") n
        /\ forall t, rstrip_char (ch "/") url <> t ++ [ch "/"]).
Proof.
  intros H.
  destruct (extract_item_required _ _ _ _ _ _ H)
    as ([n Hn] & [d Hd] & [l Hl] & [k Hk]).
  destruct (extract_item_builds nd url site selectors item _ _ _ _
              Hn Hd Hl Hk) as (event' & H' & _ & _ & _ & _ & _ & Hw & _).
  rewrite H in H'. injection H' as <-.
  exists k. split; [exact Hk|]. simpl in *.
  split; [|split; [|split]].
  - unfold get. by intros ->.
  - intros Hne Hs. rewrite Hw, Hs. by destruct (get k _ _).
  - intros Hs. by rewrite Hw, Hs, andb_false_r.
  - apply rstrip_char_spec.
Qed.



Example extract_sample_page :
  extract_items Sample.ascii_digits irunner_url (u "iRunner") irunner_selectors
    [Sample.taipei; Sample.no_name; Sample.bare] []
  = Ok [Sample.taipei_event; Sample.bare_event].
Proof. vm_compute. reflexivity. Qed.

Lemma extract_item_spec_witness :
  ~ required_present irunner_selectors Sample.no_name /\
  extract_items Sample.ascii_digits irunner_url (u "iRunner") irunner_selectors
    ([Sample.taipei] ++ Sample.no_name :: [Sample.bare]) []
  = extract_items Sample.ascii_digits irunner_url (u "iRunner")
      irunner_selectors ([Sample.taipei] ++ [Sample.bare]) [].
Proof.
  assert (H : ~ required_present irunner_selectors Sample.no_name).
  { intros [[x Hx] _]. vm_compute in Hx. discriminate. }
  split; [exact H|].
  exact (proj1 (proj2 (proj2 (extract_item_spec Sample.ascii_digits irunner_url
                                (u "iRunner") irunner_selectors)))
           [Sample.taipei] Sample.no_name [Sample.bare] H).
Defined.

Lemma website_spec_witness :
  extract_item Sample.ascii_digits irunner_url (u "iRunner") irunner_selectors
    Sample.taipei = Ok (Some Sample.taipei_event) /\
  website Sample.taipei_event = u "https://www.irunner.com.tw" ++ u "/races/taipei".
Proof.
  assert (H : extract_item Sample.ascii_digits irunner_url (u "iRunner")
                irunner_selectors Sample.taipei = Ok (Some Sample.taipei_event))
    by (vm_compute; reflexivity).
  split; [exact H|].
  destruct (website_spec _ _ _ _ _ _ H) as (link_el & Hl & _ & Hrel & _).
  vm_compute in Hl. injection Hl as <-.
  apply Hrel; [discriminate | reflexivity].
Defined.

Example running_biji_relative_link :
  website <$> event_of Sample.ascii_digits running_biji_url (u "跑步筆記")
                running_biji_selectors Sample.biji_item
  = Some (u "https://www.running.biji.co/index.php?q=competition/competition/7").
Proof. vm_compute. reflexivity. Qed.

(** The three configured URLs without their trailing slashes.  The second
    one is the address of a page with a query, and a relative link is
    appended to all of it. *)
Example configured_bases :
  rstrip_char (ch "/") irunner_url = u "https://www.irunner.com.tw" /\
  rstrip_char (ch "/") running_biji_url
  = u "https://www.running.biji.co/index.php?q=competition" /\
  rstrip_char (ch "/") sponet_url = u "https://www.sponet.tw".
Proof. by vm_compute. Qed.

(** ** Writer and FallbackLoader *)

Lemma event_of_json_of_event (event : Event) :
  event_of_json (json_of_event event) = Ok event.
Proof. by destruct event. Qed.






(** A write touches the file at its path only, and prints nothing; when it
    raises, the file is as it was or cut short. *)
Lemma write_events_frame (now path : str) (events : list Event)
    (w w' : World) (r : result unit) :
  write_events now path events w = (r, w') ->
  stdout w' = stdout w
  /\ (forall other, other <> path -> files w' !! other = files w !! other)
  /\ (r = Ok tt -> files w' = <[path := Text (payload_of now events)]> (files w))
  /\ (forall error, r = Raise error ->
        files w' = files w
        \/ exn_cls error = UnicodeEncodeError
           /\ files w' = <[path := cut_short]> (files w)).
Proof.
  unfold write_events, json_dump.
  destruct (path_error path) as [error|].
  { intros [= <- <-]. repeat split; try done. intros e _. by left. }
  assert (Hmain :
    (if json_encodable (payload_of now events)
     then (Ok tt, {| files := <[path := Text (payload_of now events)]> (files w);
                     stdout := stdout w |})
     else (Raise (mk_exn UnicodeEncodeError (u "surrogates not allowed")),
           {| files := <[path := cut_short]> (files w); stdout := stdout w |}))
    = (r, w') ->
    stdout w' = stdout w
    /\ (forall other, other <> path -> files w' !! other = files w !! other)
    /\ (r = Ok tt ->
        files w' = <[path := Text (payload_of now events)]> (files w))
    /\ (forall error, r = Raise error ->
          files w' = files w
          \/ exn_cls error = UnicodeEncodeError
             /\ files w' = <[path := cut_short]> (files w))).
  { destruct (json_encodable _); intros [= <- <-]; cbn [files stdout].
    - repeat split; try done.
      intros other Hne. by rewrite lookup_insert_ne.
    - repeat split; try done.
      + intros other Hne. by rewrite lookup_insert_ne.
      + intros e [= <-]. by right. }
  destruct (files w !! path) as [[doc | error | error]|]; try exact Hmain.
  intros [= <- <-]. repeat split; try done. intros e _. by left.
Qed.

(** What opening and parsing a file gives. *)
Lemma load_fallback_events_spec (path : str) (w : World) :
  load_fallback_events path w = (fallback_document w path, w).
Proof.
  unfold load_fallback_events, fallback_document, io_bind, json_load, lift.
  destruct (path_error path); [done|].
  by destruct (files w !! path) as [[doc | error | error]|].
Qed.




(** ** Orchestrator *)

Lemma run_fetchers_app (net : Net) (before rest : list Fetcher) :
  forall events w,
    run_fetchers net (before ++ rest) events w
    = (do* fetched := run_fetchers net before events in
       run_fetchers net rest fetched) w.
Proof.
  induction before as [|f before IH]; intros events w; simpl; [done|].
  destruct (fetcher_call f net) as [fetched | error].
  - apply IH.
  - destruct (issubclass _ _); [|done].
    unfold io_bind at 1 3. simpl. apply IH.
Qed.

(** The loop writes no file; it only prints. *)
Lemma run_fetchers_files (net : Net) (fetchers : list Fetcher) :
  forall events w r w',
    run_fetchers net fetchers events w = (r, w') -> files w' = files w.
Proof.
  induction fetchers as [|f fetchers IH]; intros events w r w'; simpl.
  - by intros [= _ <-].
  - destruct (fetcher_call f net) as [fetched | error].
    + apply IH.
    + destruct (issubclass _ _).
      * unfold io_bind. simpl. intros H. by apply IH in H.
      * by intros [= _ <-].
Qed.


Lemma dedupe_loop_distinct (rest : list Event) :
  forall seen output,
    NoDup (event_key <$> rest) ->
    (forall k, k ∈ event_key <$> rest -> k ∉ seen) ->
    dedupe_loop rest seen output = output ++ rest.
Proof.
  induction rest as [|e rest IH]; intros seen output Hnd Hs; simpl.
  - by rewrite app_nil_r.
  - rewrite fmap_cons in Hnd, Hs. apply NoDup_cons in Hnd as [Hne Hnd].
    destruct (decide (event_key e ∈ seen)) as [Hin | _].
    + exfalso. apply (Hs (event_key e)); [by left | exact Hin].
    + rewrite IH, <- app_assoc; [done | exact Hnd |].
      intros k Hk Hin. apply elem_of_union in Hin as [Hin | Hin].
      * apply elem_of_singleton in Hin as ->. by apply Hne.
      * apply (Hs k); [by right | exact Hin].
Qed.

(** Events with distinct keys pass the deduplicator unchanged. *)
Lemma dedupe_events_distinct (events : list Event) :
  NoDup (event_key <$> events) -> dedupe_events events = events.
Proof.
  intros H. unfold dedupe_events. rewrite dedupe_loop_distinct; [done..|].
  intros k _. apply not_elem_of_empty.
Qed.





(** What [finish] does: it settles the list, then writes and reports. *)
Lemma finish_spec (now : str) (args : Args) (events : list Event) (w : World) :
  finish now args events w
  = let notice := if nonempty events then [] else [fallback_line] in
    let w0 := {| files := files w; stdout := stdout w ++ notice |} in
    match chosen_events w args events with
    | Ok found =>
      (do* _ := write_events now (output args) (dedupe_events found) in
       print (summary_line (dedupe_events found) args)) w0
    | Raise error => (Raise error, w0)
    end.
Proof.
  unfold finish, chosen_events. destruct events as [|e events].
  - cbn [nonempty]. unfold io_bind at 1 2. unfold print at 1.
    rewrite load_fallback_events_spec.
    change (fallback_document {| files := files w;
                                 stdout := stdout w ++ [fallback_line] |}
              (fallback args))
      with (fallback_document w (fallback args)).
    by destruct (fallback_document w (fallback args)).
  - cbn [nonempty]. unfold io_bind at 1, io_ret. cbv zeta.
    destruct w as [f o]. cbn [files stdout]. by rewrite app_nil_r.
Qed.




(** C3. A fetcher that raises an exception of the class RequestException
    does not stop the run: a warning with its name is printed, the list of
    events is left as it was and the loop goes on with the next fetcher.
    An exception of any other class is not caught: [main] ends with it,
    and no file has been written. *)
Theorem main_fetch_errors (net : Net) (now : str) (args : Args)
    (before rest : list Fetcher) (fetcher : Fetcher) (error : exn)
    (events : list Event) (w w1 : World) :
  run_fetchers net before [] w = (Ok events, w1) ->
  fetcher_call fetcher net = Raise error ->
  (issubclass (exn_cls error) RequestException = true ->
     let warned :=
       {| files := files w1;
          stdout := stdout w1 ++ [warning_line fetcher error] |} in
     run_fetchers net (before ++ fetcher :: rest) [] w
     = run_fetchers net rest events warned
     /\ main_with (before ++ fetcher :: rest) net now args w
        = (do* fetched := run_fetchers net rest events in
           finish now args fetched) warned
     /\ contains (fetcher_name fetcher) (warning_line fetcher error) = true)
  /\
  (issubclass (exn_cls error) RequestException = false ->
     main_with (before ++ fetcher :: rest) net now args w = (Raise error, w1)
     /\ files w1 = files w).
Proof.
  intros Hb He.
  assert (Hloop : run_fetchers net (before ++ fetcher :: rest) [] w
                  = run_fetchers net (fetcher :: rest) events w1).
  { rewrite run_fetchers_app. unfold io_bind. by rewrite Hb. }
  split; intros Hc.
  - assert (Hstep : run_fetchers net (fetcher :: rest) events w1
                    = run_fetchers net rest events
                        {| files := files w1;
                           stdout := stdout w1 ++ [warning_line fetcher error] |}).
    { simpl. by rewrite He, Hc. }
    split; [by rewrite Hloop, Hstep|]. split.
    + unfold main_with, io_bind at 1. rewrite Hloop, Hstep. reflexivity.
    + apply contains_spec. unfold warning_line.
      by exists (u "警告: 無法抓取 "), (u ": " ++ exn_msg error).
  - split; [|by eapply run_fetchers_files].
    unfold main_with, io_bind. rewrite Hloop. simpl. by rewrite He, Hc.
Qed.



(** The scenario of a run without network, written out: three warnings,
    the fallback notice, the four events written back, and the summary. *)
Example main_offline_run :
  main Sample.ascii_digits Sample.offline Sample.new_stamp default_args
    Sample.world
  = (Ok tt,
     {| files := {[ u "data/events.json" :=
                      Text (payload_of Sample.new_stamp Sample.four_events) ]};
        stdout := [ u "警告: 無法抓取 fetch_irunner: unreachable";
                    u "警告: 無法抓取 fetch_running_biji: unreachable";
                    u "警告: 無法抓取 fetch_sponet: unreachable";
                    u "未取得任何賽事，改用 fallback 資料。";
                    u "已輸出 4 場賽事至 data/events.json" ] |}).
Proof. vm_compute. reflexivity. Qed.

Lemma main_fetch_errors_witness :
  let fetchers := registry Sample.ascii_digits in
  let warned :=
    {| files := files Sample.world;
       stdout := [ u "警告: 無法抓取 fetch_running_biji: timed out" ] |} in
  main Sample.ascii_digits Sample.flaky Sample.new_stamp default_args
    Sample.world
  = (do* fetched :=
       run_fetchers Sample.flaky (drop 2 fetchers)
         [Sample.taipei_event; Sample.bare_event] in
     finish Sample.new_stamp default_args fetched) warned.
Proof.
  pose proof (main_fetch_errors Sample.flaky Sample.new_stamp default_args
                (take 1 (registry Sample.ascii_digits))
                (drop 2 (registry Sample.ascii_digits))
                {| fetcher_name := u "fetch_running_biji";
                   fetcher_call := fetch_running_biji Sample.ascii_digits |}
                (mk_exn Timeout (u "timed out"))
                [Sample.taipei_event; Sample.bare_event]
                Sample.world Sample.world) as H.
  assert (Hb : run_fetchers Sample.flaky (take 1 (registry Sample.ascii_digits))
                 [] Sample.world
               = (Ok [Sample.taipei_event; Sample.bare_event], Sample.world))
    by (vm_compute; reflexivity).
  assert (He : fetch_running_biji Sample.ascii_digits Sample.flaky
               = Raise (mk_exn Timeout (u "timed out")))
    by (vm_compute; reflexivity).
  destruct (H Hb He) as [Hreq _].
  destruct (Hreq eq_refl) as (_ & Hmain & _).
  exact Hmain.
Defined.

(** The run stops at the exception of the third fetcher: the two warnings
    are on the console and no file is touched. *)
Example main_unexpected_error :
  main Sample.ascii_digits Sample.broken Sample.new_stamp default_args
    Sample.world
  = (Raise (mk_exn TypeError (u "unexpected")),
     {| files := files Sample.world;
        stdout := [ u "警告: 無法抓取 fetch_irunner: unreachable";
                    u "警告: 無法抓取 fetch_running_biji: unreachable" ] |}).
Proof. vm_compute. reflexivity. Qed.

(** Two records with one key count as one event. *)
Example dedupe_same_key :
  dedupe_events [Sample.taipei_event; Sample.taipei_again]
  = [Sample.taipei_event].
Proof. vm_compute. reflexivity. Qed.

(** * Further properties *)

(** ** Deduplicator *)

Lemma dedupe_loop_output (rest : list Event) :
  forall seen output,
    dedupe_loop rest seen output = output ++ dedupe_loop rest seen [].
Proof.
  induction rest as [|e rest IH]; intros seen output; simpl.
  - by rewrite app_nil_r.
  - destruct (decide (event_key e ∈ seen)); [apply IH|].
    rewrite (IH _ (output ++ [e])), (IH _ [e]). by rewrite <- app_assoc.
Qed.

Lemma dedupe_loop_app (before rest : list Event) :
  forall seen output,
    dedupe_loop (before ++ rest) seen output
    = dedupe_loop rest (seen ∪ keys_of before) (dedupe_loop before seen output).
Proof.
  induction before as [|e before IH]; intros seen output; simpl.
  - f_equal. unfold keys_of. simpl. by rewrite union_empty_r_L.
  - destruct (decide (event_key e ∈ seen)) as [Hin | Hnin]; rewrite IH; f_equal.
    + apply set_eq. intros k. unfold keys_of. simpl.
      rewrite !elem_of_union, elem_of_singleton. naive_solver.
    + apply set_eq. intros k. unfold keys_of. simpl.
      rewrite !elem_of_union, elem_of_singleton. naive_solver.
Qed.

Lemma dedupe_loop_filter (rest : list Event) (old : gset (str * str * str)) :
  forall seen,
    dedupe_loop rest (old ∪ seen) []
    = filter (fun e => event_key e ∉ old) (dedupe_loop rest seen []).
Proof.
  induction rest as [|e rest IH]; intros seen; simpl; [done|].
  destruct (decide (event_key e ∈ seen)) as [Hs | Hs].
  - rewrite decide_True by (apply elem_of_union; by right). apply IH.
  - rewrite (dedupe_loop_output rest ({[event_key e]} ∪ seen) [e]), filter_app.
    destruct (decide (event_key e ∈ old)) as [Ho | Ho].
    + rewrite decide_True by (apply elem_of_union; by left).
      rewrite filter_cons_False, filter_nil by (intros Hn; by apply Hn).
      simpl. rewrite <- IH. f_equal. apply set_eq. intros k.
      rewrite !elem_of_union, elem_of_singleton. naive_solver.
    + rewrite decide_False
        by (intros Hn; apply elem_of_union in Hn as [?|?]; done).
      rewrite filter_cons_True, filter_nil by done.
      rewrite (dedupe_loop_output rest _ [e]). f_equal.
      rewrite <- IH. f_equal. apply set_eq. intros k.
      rewrite !elem_of_union, elem_of_singleton. naive_solver.
Qed.

Lemma dedupe_loop_keys (rest : list Event) :
  forall seen output k,
    k ∈ event_key <$> dedupe_loop rest seen output
    <-> k ∈ event_key <$> output \/ (k ∈ event_key <$> rest /\ k ∉ seen).
Proof.
  induction rest as [|e rest IH]; intros seen output k; simpl.
  - split; [by left | intros [H | [H _]]; [done | by inversion H]].
  - rewrite elem_of_cons.
    destruct (decide (event_key e ∈ seen)) as [Hs | Hs]; rewrite IH.
    + naive_solver.
    + rewrite fmap_app, elem_of_app, elem_of_union, elem_of_singleton.
      simpl. rewrite list_elem_of_singleton.
      destruct (decide (k = event_key e)); naive_solver.
Qed.

(** X1. Deduplicating twice is deduplicating once. *)
Theorem dedupe_events_idempotent (events : list Event) :
  dedupe_events (dedupe_events events) = dedupe_events events.
Proof.
  apply dedupe_events_distinct. unfold dedupe_events.
  apply dedupe_loop_NoDup; [constructor | intros k Hk; inversion Hk].
Qed.

(** X2. On a concatenation the first list wins: the result is the first
    list deduplicated, followed by the second list deduplicated with the
    events whose key the first list already has taken out. *)
Theorem dedupe_events_app (first second : list Event) :
  dedupe_events (first ++ second)
  = dedupe_events first
    ++ filter (fun e => event_key e ∉ keys_of first) (dedupe_events second).
Proof.
  unfold dedupe_events.
  rewrite dedupe_loop_app, dedupe_loop_output. f_equal.
  rewrite <- dedupe_loop_filter. f_equal.
  by rewrite union_empty_l_L, union_empty_r_L.
Qed.

(** X3. The output keeps every key of the input, once: the two have the
    same set of keys, and the output has as many events as the input has
    different keys. *)
Theorem dedupe_events_keys (events : list Event) :
  keys_of (dedupe_events events) = keys_of events
  /\ length (dedupe_events events) = size (keys_of events).
Proof.
  assert (Hk : keys_of (dedupe_events events) = keys_of events).
  { apply set_eq. intros k. unfold keys_of, dedupe_events.
    rewrite !elem_of_list_to_set, dedupe_loop_keys.
    split; [intros [H | [H _]]; [by inversion H | done] |].
    intros H. right. split; [done | apply not_elem_of_empty]. }
  split; [exact Hk|]. rewrite <- Hk. unfold keys_of.
  rewrite size_list_to_set, length_fmap; [done|].
  unfold dedupe_events.
  apply dedupe_loop_NoDup; [constructor | intros k H; inversion H].
Qed.

(** ** Text, again *)

Lemma lstrip_suffix (s : str) : exists pre, s = pre ++ lstrip s.
Proof.
  induction s as [|c s [pre IH]]; simpl; [by exists []|].
  destruct (is_space c); [|by exists []].
  exists (c :: pre). simpl. by rewrite <- IH.
Qed.

Lemma rstrip_prefix (s : str) : exists post, s = rstrip s ++ post.
Proof.
  unfold rstrip. destruct (lstrip_suffix (rev s)) as [pre H].
  exists (rev pre). apply (f_equal (@rev N)) in H.
  by rewrite rev_involutive, rev_app_distr in H.
Qed.

(** The stripped text is a piece of the text. *)
Lemma strip_inside (s : str) : exists pre post, s = pre ++ strip s ++ post.
Proof.
  unfold strip. destruct (lstrip_suffix s) as [pre Hpre].
  destruct (rstrip_prefix (lstrip s)) as [post Hpost].
  exists pre, post. by rewrite <- Hpost.
Qed.

Lemma lstrip_spaces (ws s : str) :
  forallb is_space ws = true -> lstrip (ws ++ s) = lstrip s.
Proof.
  induction ws as [|c ws IH]; simpl; [done|].
  intros H. apply andb_true_iff in H as [Hc Hws]. rewrite Hc. by apply IH.
Qed.

Lemma lstrip_app (s t : str) :
  lstrip (s ++ t) = match lstrip s with [] => lstrip t | _ => lstrip s ++ t end.
Proof.
  induction s as [|c s IH]; simpl; [by destruct (lstrip t)|].
  destruct (is_space c); [exact IH | done].
Qed.

Lemma rstrip_spaces (s ws : str) :
  forallb is_space ws = true -> rstrip (s ++ ws) = rstrip s.
Proof.
  intros H. unfold rstrip. rewrite rev_app_distr, lstrip_spaces; [done|].
  rewrite forallb_forall in *. intros c Hc. apply H. by apply in_rev.
Qed.

Lemma lstrip_all_spaces (ws : str) :
  forallb is_space ws = true -> lstrip ws = [].
Proof.
  intros H. rewrite <- (app_nil_r ws). by rewrite lstrip_spaces.
Qed.

(** White space around a text does not change what [strip] gives. *)
Lemma strip_pad (ws1 s ws2 : str) :
  forallb is_space ws1 = true -> forallb is_space ws2 = true ->
  strip (ws1 ++ s ++ ws2) = strip s.
Proof.
  intros H1 H2. unfold strip. rewrite (lstrip_spaces _ _ H1), lstrip_app.
  destruct (lstrip s) as [|c r] eqn:Hs.
  - by rewrite (lstrip_all_spaces _ H2).
  - by rewrite rstrip_spaces.
Qed.

(** ** StatusClassifier, again *)

(** X4. The call of [strip] does not change the answer: the text is open
    exactly when the text as given contains one of the keywords. *)
Theorem guess_open_status_unstripped (text : str) :
  guess_open_status text
  = existsb (fun keyword => contains keyword text) open_keywords.
Proof.
  apply eq_true_iff_eq. rewrite guess_open_status_iff, existsb_exists.
  split.
  - intros (kw & pre & post & Hin & Hs). exists kw.
    split; [by apply list_elem_of_In|]. apply contains_spec.
    destruct (strip_inside text) as (pre' & post' & Ht).
    exists (pre' ++ pre), (post ++ post'). rewrite Ht at 1. rewrite Hs.
    by rewrite <- !app_assoc.
  - intros (kw & Hin & Hc). apply contains_spec in Hc as (pre & post & ->).
    destruct (proj1 (List.Forall_forall _ _) open_keywords_words kw Hin)
      as [Hne Hw].
    destruct (strip_keeps pre kw post Hne Hw) as (pre' & post' & H).
    exists kw, pre', post'. split; [by apply list_elem_of_In | exact H].
Qed.

(** X5. Text added before or after an open status never closes it. *)
Theorem guess_open_status_monotone (before text after : str) :
  guess_open_status text = true ->
  guess_open_status (before ++ text ++ after) = true.
Proof.
  rewrite !guess_open_status_iff.
  intros (kw & pre & post & Hin & Hs).
  destruct (strip_inside text) as (pre' & post' & Ht).
  destruct (proj1 (List.Forall_forall _ _) open_keywords_words kw
              (proj1 (list_elem_of_In _ _) Hin)) as [Hne Hw].
  destruct (strip_keeps (before ++ pre' ++ pre) kw (post ++ post' ++ after)
              Hne Hw) as (pre2 & post2 & H).
  exists kw, pre2, post2. split; [exact Hin|]. rewrite <- H. f_equal.
  rewrite Ht at 1. rewrite Hs. by rewrite <- !app_assoc.
Qed.

Lemma guess_open_status_monotone_witness :
  guess_open_status (u "報名中") = true /\
  guess_open_status (u "尚未" ++ u "報名中" ++ u "止") = true.
Proof.
  assert (H : guess_open_status (u "報名中") = true) by reflexivity.
  split; [exact H|].
  exact (guess_open_status_monotone (u "尚未") (u "報名中") (u "止") H).
Defined.

(** ** DateNormalizer, again *)

(** X6. White space before and after the input does not matter. *)
Theorem normalize_date_padding (nd : N -> option N) (ws1 value ws2 : str) :
  forallb is_space ws1 = true -> forallb is_space ws2 = true ->
  normalize_date nd (ws1 ++ value ++ ws2) = normalize_date nd value.
Proof.
  intros H1 H2. unfold normalize_date, clean_date.
  by rewrite (strip_pad _ _ _ H1 H2).
Qed.

Lemma normalize_date_padding_witness :
  forallb is_space (u "  ") = true /\
  forallb is_space [0x3000; 0x0A] = true /\
  normalize_date Sample.ascii_digits (u "  " ++ u "2024/5/10" ++ [0x3000; 0x0A])
  = normalize_date Sample.ascii_digits (u "2024/5/10").
Proof.
  assert (H1 : forallb is_space (u "  ") = true) by reflexivity.
  assert (H2 : forallb is_space [0x3000; 0x0A] = true) by reflexivity.
  split; [exact H1|]. split; [exact H2|].
  exact (normalize_date_padding Sample.ascii_digits _ (u "2024/5/10") _ H1 H2).
Defined.

(** X7. A text whose cleaned form has fewer than eight characters is too
    short for any date pattern: it is returned in its cleaned form. *)
Theorem normalize_date_short_text (nd : N -> option N) (value : str) :
  (length (clean_date value) < 8)%nat ->
  normalize_date nd value = Ok (clean_date value).
Proof. apply normalize_date_short. Qed.

Lemma normalize_date_short_text_witness :
  (length (clean_date (u " 5月 10日 ")) < 8)%nat /\
  normalize_date Sample.ascii_digits (u " 5月 10日 ") = Ok (u "5- 10").
Proof.
  assert (H : (length (clean_date (u " 5月 10日 ")) < 8)%nat)
    by (vm_compute; lia).
  split; [exact H|].
  exact (normalize_date_short_text Sample.ascii_digits (u " 5月 10日 ") H).
Defined.

(** X8. A text of the shape dddd-dd-dd in ASCII digits, with a year from
    1000 on, is returned as it is, whether it names a date of the calendar
    or not; so what [normalize_date] has brought into this shape stays as
    it is when it is normalised again. *)
Theorem normalize_date_canonical_fixed (nd : N -> option N)
    (a b c d e f g h : N) :
  forallb ascii_digit [a; b; c; d; e; f; g; h] = true ->
  a <> ch "0" ->
  normalize_date nd (canonical a b c d e f g h)
  = Ok (canonical a b c d e f g h).
Proof. intros H Ha. by apply normalize_date_canonical. Qed.

Lemma normalize_date_canonical_fixed_witness :
  forallb ascii_digit (u "20240229") = true /\
  ch "2" <> ch "0" /\
  normalize_date Sample.ascii_digits (u "2024-02-29") = Ok (u "2024-02-29").
Proof.
  assert (H : forallb ascii_digit (u "20240229") = true) by reflexivity.
  assert (Hy : ch "2" <> ch "0") by (vm_compute; discriminate).
  split; [exact H|]. split; [exact Hy|].
  exact (normalize_date_canonical_fixed Sample.ascii_digits
           (ch "2") (ch "0") (ch "2") (ch "4") (ch "0") (ch "2") (ch "2")
           (ch "9") H Hy).
Defined.

(** ** SiteExtractor, FallbackLoader and Orchestrator *)

Lemma run_fetchers_tolerated (net : Net) (fetchers : list Fetcher) :
  Forall (tolerated net) fetchers ->
  forall events w,
    run_fetchers net fetchers events w
    = (Ok (events ++ flat_map (fetched net) fetchers),
       {| files := files w;
          stdout := stdout w ++ omap (warning_of net) fetchers |}).
Proof.
  induction 1 as [|f fetchers Hf _ IH]; intros events w; simpl.
  - destruct w. simpl. by rewrite !app_nil_r.
  - unfold fetched at 1, warning_of at 1. unfold tolerated in Hf.
    destruct (fetcher_call f net) as [evs | error].
    + rewrite IH. by rewrite <- app_assoc.
    + rewrite (Hf error eq_refl). unfold io_bind. simpl. rewrite IH. simpl.
      by rewrite <- app_assoc.
Qed.

Lemma main_with_spec (fetchers : list Fetcher) (net : Net) (now : str)
    (args : Args) (w : World) :
  Forall (tolerated net) fetchers ->
  main_with fetchers net now args w
  = finish now args (flat_map (fetched net) fetchers)
      {| files := files w;
         stdout := stdout w ++ omap (warning_of net) fetchers |}.
Proof.
  intros H. unfold main_with, io_bind.
  by rewrite (run_fetchers_tolerated net fetchers H [] w).
Qed.


Lemma unloadable_raises (w : World) (path : str) (cls : exn_class) :
  unloadable w path cls ->
  exists error, exn_cls error = cls /\ fallback_document w path = Raise error.
Proof.
  unfold fallback_document.
  intros [error Hp | Hp Hf | error Hp Hf | error Hp Hf | data [Hp Hf] Hd
          | d [Hp Hf] Hd].
  - rewrite Hp. exists error. split; reflexivity.
  - rewrite Hp, Hf. eexists. split; [|reflexivity]. reflexivity.
  - rewrite Hp, Hf. exists error. split; reflexivity.
  - rewrite Hp, Hf. exists error. split; reflexivity.
  - rewrite Hp, Hf.
    destruct data as [| | | | |d];
      try (eexists; split; [|reflexivity]; reflexivity).
    by destruct (Hd d).
  - rewrite Hp, Hf. unfold events_of_document, getitem. rewrite Hd.
    eexists. split; [|reflexivity]. reflexivity.
Qed.

(** X10. When nothing was scraped and the fallback file does not load (no
    file at the path, a path that [open] refuses, a text that is no JSON
    document, a document that is no object or has no "events"), [main]
    ends with the exception of the load: the warnings and the fallback
    notice are printed, no file is written and there is no summary. *)
Theorem main_fallback_failure (nd : N -> option N) (net : Net) (now : str)
    (args : Args) (w : World) (cls : exn_class) :
  Forall (tolerated net) (registry nd) ->
  flat_map (fetched net) (registry nd) = [] ->
  unloadable w (fallback args) cls ->
  exists error,
    exn_cls error = cls
    /\ main nd net now args w
       = (Raise error,
          {| files := files w;
             stdout := stdout w ++ omap (warning_of net) (registry nd)
                       ++ [fallback_line] |}).
Proof.
  intros Ht He Hu. apply unloadable_raises in Hu as (error & Hc & Hf).
  exists error. split; [exact Hc|].
  unfold main. rewrite main_with_spec by done.
  rewrite finish_spec, He. unfold chosen_events.
  cbn [nonempty files stdout].
  change (fallback_document {| files := files w;
                               stdout := stdout w
                                         ++ omap (warning_of net) (registry nd) |}
            (fallback args))
    with (fallback_document w (fallback args)).
  rewrite Hf. by rewrite <- app_assoc.
Qed.

Lemma run_fetchers_stdout (net : Net) (fetchers : list Fetcher) :
  forall events w r w',
    run_fetchers net fetchers events w = (r, w') ->
    exists printed, stdout w' = stdout w ++ printed.
Proof.
  induction fetchers as [|f fetchers IH]; intros events w r w'; simpl.
  - intros [= _ <-]. exists []. by rewrite app_nil_r.
  - destruct (fetcher_call f net) as [evs | error]; [apply IH|].
    destruct (issubclass _ _).
    + unfold io_bind. simpl. intros H. apply IH in H as [printed H].
      simpl in H. exists (warning_line f error :: printed).
      by rewrite H, <- app_assoc.
    + intros [= _ <-]. exists []. by rewrite app_nil_r.
Qed.

(** What a run does to the files and to the console, whatever its end. *)
Lemma main_with_frame (fetchers : list Fetcher) (net : Net) (now : str)
    (args : Args) (w w' : World) (r : result unit) :
  main_with fetchers net now args w = (r, w') ->
  (forall path, path <> output args -> files w' !! path = files w !! path)
  /\ (forall error, r = Raise error ->
        files w' = files w
        \/ exn_cls error = UnicodeEncodeError
           /\ files w' = <[output args := cut_short]> (files w))
  /\ (r = Ok tt ->
      exists events,
        NoDup (event_key <$> events)
        /\ json_encodable (payload_of now events) = true
        /\ files w' = <[output args := Text (payload_of now events)]> (files w)
        /\ last (stdout w') = Some (summary_line events args))
  /\ (exists printed, stdout w' = stdout w ++ printed).
Proof.
  unfold main_with, io_bind.
  destruct (run_fetchers net fetchers [] w) as [[events | error] w0] eqn:Hr.
  - pose proof (run_fetchers_files _ _ _ _ _ _ Hr) as Hf.
    destruct (run_fetchers_stdout _ _ _ _ _ _ Hr) as [printed Hp].
    rewrite finish_spec. cbv zeta.
    destruct (chosen_events _ _ _) as [found | error].
    + unfold io_bind.
      destruct (write_events _ _ _ _) as [[[] | error] w1] eqn:Hw.
      * pose proof Hw as Hw'.
        apply write_events_frame in Hw as (Hs & Ho & Hok & _).
        cbn [files stdout] in Hs, Ho, Hok.
        unfold print. intros [= <- <-]. cbn [files stdout].
        split; [|split; [|split]].
        -- intros path Hne. by rewrite Ho, Hf.
        -- intros error [=].
        -- intros _. exists (dedupe_events found).
           split.
           { unfold dedupe_events.
             apply dedupe_loop_NoDup; [constructor | intros k Hk; inversion Hk]. }
           split.
           { unfold write_events, json_dump in Hw'.
             destruct (path_error _); [done|].
             destruct (json_encodable _); [done|].
             by destruct (files _ !! _) as [[?|?|?]|]. }
           split; [by rewrite Hok, Hf | apply last_snoc].
        -- rewrite Hs, Hp.
           exists (printed ++ (if nonempty events then [] else [fallback_line])
                   ++ [summary_line (dedupe_events found) args]).
           by rewrite <- !app_assoc.
      * apply write_events_frame in Hw as (Hs & Ho & _ & Hrs).
        cbn [files stdout] in Hs, Ho, Hrs.
        intros [= <- <-].
        split; [|split; [|split]].
        -- intros path Hne. by rewrite Ho, Hf.
        -- intros e [= <-]. rewrite <- Hf. by apply Hrs.
        -- intros [=].
        -- rewrite Hs, Hp.
           exists (printed ++ if nonempty events then [] else [fallback_line]).
           by rewrite <- app_assoc.
    + intros [= <- <-]. cbn [files stdout]. rewrite Hf, Hp.
      split; [done|]. split; [intros e _; by left|]. split; [intros [=]|].
      exists (printed ++ if nonempty events then [] else [fallback_line]).
      by rewrite <- app_assoc.
  - intros [= <- <-].
    pose proof (run_fetchers_files _ _ _ _ _ _ Hr) as Hf.
    destruct (run_fetchers_stdout _ _ _ _ _ _ Hr) as [printed Hp].
    split; [by rewrite Hf|]. split; [intros e _; by left|].
    split; [intros [=]|]. by exists printed.
Qed.

(** X11. Whatever happens, a run changes no file but the output file and
    the console only grows.  A run that ends with an exception has changed
    no file at all, unless the exception is the UnicodeEncodeError of the
    write, which leaves the output file cut short. *)
Theorem main_frame (fetchers : list Fetcher) (net : Net) (now : str)
    (args : Args) (w w' : World) (r : result unit) :
  main_with fetchers net now args w = (r, w') ->
  (forall path, path <> output args -> files w' !! path = files w !! path)
  /\ (forall error, r = Raise error ->
        files w' = files w
        \/ exn_cls error = UnicodeEncodeError
           /\ files w' = <[output args := cut_short]> (files w))
  /\ (exists printed, stdout w' = stdout w ++ printed).
Proof.
  intros H. apply main_with_frame in H as (H1 & H2 & _ & H4). by repeat split.
Qed.





Lemma extract_generic_raises_inv (nd : N -> option N) (net : Net)
    (url site : str) (selectors : Selectors) (error : exn) :
  extract_generic nd net url site selectors = Raise error ->
  net url = Raise error
  \/ exists response,
      net url = Ok response
      /\ 400 <= status_code response < 600
      /\ error = mk_exn HTTPError (http_error_msg response).
Proof.
  unfold extract_generic. destruct (net url) as [response | e]; simpl.
  - unfold raise_for_status.
    destruct ((400 <=? status_code response) && (status_code response <? 600))
      eqn:Hs; simpl.
    + intros [= <-]. right. exists response.
      apply andb_true_iff in Hs as [H1 H2].
      apply N.leb_le in H1. apply N.ltb_lt in H2. by repeat split.
    + by rewrite extract_items_collects.
  - intros [= <-]. by left.
Qed.

Lemma event_of_source (nd : N -> option N) (url site : str)
    (selectors : Selectors) (item : Item) (event : Event) :
  event_of nd url site selectors item = Some event -> source event = site.
Proof.
  unfold event_of.
  destruct (extract_item nd url site selectors item) as [[e|]|] eqn:H; [|done..].
  intros [= <-].
  destruct (extract_item_required _ _ _ _ _ _ H)
    as ([n Hn] & [d Hd] & [l Hl] & [k Hk]).
  destruct (extract_item_builds nd url site selectors item _ _ _ _
              Hn Hd Hl Hk) as (e' & H' & _ & _ & _ & _ & _ & _ & Hs).
  rewrite H in H'. by injection H' as <-.
Qed.

Lemma omap_length_le {A B} (f : A -> option B) (l : list A) :
  (length (omap f l) <= length l)%nat.
Proof.
  induction l as [|x l IH]; [done|].
  change (omap f (x :: l))
    with (match f x with Some y => y :: omap f l | None => omap f l end).
  destruct (f x); cbn [length]; lia.
Qed.

(** X15. For a response whose status is not in 400..599, [extract_generic]
    returns a list with at most one event for each selected item, and
    every event carries the source name it was given. *)
Theorem extract_generic_events (nd : N -> option N) (net : Net)
    (url site : str) (selectors : Selectors) (response : Response) :
  net url = Ok response ->
  (status_code response < 400 \/ 600 <= status_code response) ->
  exists events,
    extract_generic nd net url site selectors = Ok events
    /\ Forall (fun event => source event = site) events
    /\ (length events
        <= length (select (document response) (sel_item selectors)))%nat.
Proof.
  intros Hn Hs.
  assert (Hr : raise_for_status response = Ok tt).
  { unfold raise_for_status.
    destruct ((400 <=? status_code response) && (status_code response <? 600))
      eqn:E; [|done].
    apply andb_true_iff in E as [H1 H2].
    apply N.leb_le in H1. apply N.ltb_lt in H2. exfalso. lia. }
  eexists. split; [by apply extract_generic_collects|]. split.
  - apply Forall_forall. intros event He.
    apply list_elem_of_omap in He as (item & _ & He).
    by eapply event_of_source.
  - apply omap_length_le.
Qed.

(** The fetchers of the registry raise what the requests raise, or an
    HTTPError. *)
Lemma registry_tolerated (nd : N -> option N) (net : Net) :
  (forall url error,
      net url = Raise error ->
      issubclass (exn_cls error) RequestException = true) ->
  Forall (tolerated net) (registry nd).
Proof.
  intros Hnet. unfold registry.
  repeat apply List.Forall_cons; try apply List.Forall_nil;
    intros error He; simpl in He;
    apply extract_generic_raises_inv in He
      as [He | (response & _ & _ & ->)]; eauto.
Qed.

Lemma events_of_json_app (before : list Event) (rest : list json) :
  events_of_json (map json_of_event before ++ rest)
  = let* events := events_of_json rest in Ok (before ++ events).
Proof.
  induction before as [|e before IH].
  - simpl. by destruct (events_of_json rest).
  - change (events_of_json (map json_of_event (e :: before) ++ rest))
      with (let* event := event_of_json (json_of_event e) in
            let* events := events_of_json (map json_of_event before ++ rest) in
            Ok (event :: events)).
    rewrite event_of_json_of_event, IH. simpl.
    by destruct (events_of_json rest).
Qed.

Lemma event_of_json_without (key : str) (event : Event) :
  key ∈ event_fields ->
  event_of_json (without key (json_of_event event)) = Raise (mk_exn KeyError key).
Proof.
  intros H. unfold event_fields in H. destruct event.
  repeat (apply elem_of_cons in H as [-> | H]; [reflexivity|]).
  inversion H.
Qed.

(** X17. One entry that lacks one of the seven fields makes the whole load
    fail with the KeyError of that field: no part of the list is
    returned. *)
Theorem load_missing_field (generated_at key : str)
    (before after : list Event) (event : Event) :
  key ∈ event_fields ->
  events_of_document
    (JDict [ (u "generatedAt", JStr generated_at);
             (u "events",
              JList (map json_of_event before
                     ++ without key (json_of_event event)
                        :: map json_of_event after)) ])
  = Raise (mk_exn KeyError key).
Proof.
  intros H. unfold events_of_document.
  change (getitem _ (u "events")) with
    (Ok (JList (map json_of_event before
                ++ without key (json_of_event event)
                   :: map json_of_event after))).
  cbn [bind iterate]. rewrite events_of_json_app.
  change (events_of_json (without key (json_of_event event)
                          :: map json_of_event after))
    with (let* e := event_of_json (without key (json_of_event event)) in
          let* es := events_of_json (map json_of_event after) in
          Ok (e :: es)).
  by rewrite event_of_json_without.
Qed.

Lemma extract_generic_events_witness :
  exists events,
    extract_generic Sample.ascii_digits Sample.flaky irunner_url (u "iRunner")
      irunner_selectors = Ok events
    /\ Forall (fun event => source event = u "iRunner") events
    /\ (length events <= 3)%nat.
Proof.
  apply (extract_generic_events Sample.ascii_digits Sample.flaky irunner_url
           (u "iRunner") irunner_selectors
           {| status_code := 200; reason := u "OK";
              response_url := irunner_url;
              document := mk_Soup (fun _ => [Sample.taipei; Sample.no_name;
                                             Sample.bare]) |}).
  - reflexivity.
  - left. reflexivity.
Defined.

Lemma offline_requests (url : str) (error : exn) :
  Sample.offline url = Raise error ->
  issubclass (exn_cls error) RequestException = true.
Proof. by intros [= <-]. Qed.



Lemma offline_tolerated :
  Forall (tolerated Sample.offline) (registry Sample.ascii_digits).
Proof. apply registry_tolerated, offline_requests. Qed.

Lemma main_fallback_failure_witness :
  unloadable Sample.empty_world (fallback default_args) FileNotFoundError /\
  exists error,
    exn_cls error = FileNotFoundError
    /\ main Sample.ascii_digits Sample.offline Sample.new_stamp default_args
         Sample.empty_world
       = (Raise error,
          {| files := ∅;
             stdout := [ u "警告: 無法抓取 fetch_irunner: unreachable";
                         u "警告: 無法抓取 fetch_running_biji: unreachable";
                         u "警告: 無法抓取 fetch_sponet: unreachable";
                         u "未取得任何賽事，改用 fallback 資料。" ] |}).
Proof.
  assert (He : flat_map (fetched Sample.offline) (registry Sample.ascii_digits)
               = []) by reflexivity.
  assert (Hu : unloadable Sample.empty_world (fallback default_args)
                 FileNotFoundError)
    by (apply unloadable_missing; reflexivity).
  split; [exact Hu|].
  destruct (main_fallback_failure Sample.ascii_digits Sample.offline
              Sample.new_stamp default_args Sample.empty_world _
              offline_tolerated He Hu) as (error & Hc & Hm).
  exists error. split; [exact Hc|]. rewrite Hm. vm_compute. reflexivity.
Defined.

Lemma main_frame_witness :
  files (snd (main_with (registry Sample.ascii_digits) Sample.flaky
                Sample.new_stamp
                {| output := u "out.json"; fallback := u "data/events.json" |}
                Sample.world))
    !! u "data/events.json"
  = files Sample.world !! u "data/events.json".
Proof.
  destruct (main_frame (registry Sample.ascii_digits) Sample.flaky
              Sample.new_stamp
              {| output := u "out.json"; fallback := u "data/events.json" |}
              Sample.world _ _ (surjective_pairing _)) as [H _].
  apply H. cbn [output]. vm_compute. discriminate.
Defined.



Lemma load_missing_field_witness :
  u "raceDate" ∈ event_fields /\
  events_of_document
    (JDict [ (u "generatedAt", JStr Sample.old_stamp);
             (u "events",
              JList (map json_of_event [Sample.taipei_event]
                     ++ without (u "raceDate")
                          (json_of_event Sample.bare_event)
                        :: map json_of_event [Sample.taroko_event])) ])
  = Raise (mk_exn KeyError (u "raceDate")).
Proof.
  assert (H : u "raceDate" ∈ event_fields)
    by (do 2 (apply elem_of_cons; right); apply elem_of_cons; by left).
  split; [exact H|].
  exact (load_missing_field Sample.old_stamp (u "raceDate")
           [Sample.taipei_event] [Sample.taroko_event] Sample.bare_event H).
Defined.
